(** * nix-oci-hashes: a shallow embedding of [nix/scripts/manage-images.py]

    The three subcommands of [manage-images.py] ([generate-versions],
    [generate-pins], [harvest-digests]) are modelled over an explicit
    filesystem state.  Python strings are modelled as ASCII strings; the
    FROM-line regular expression is modelled by a small backtracking
    matcher that tries alternatives in the order Python's [re] engine does,
    so that the captured groups are the ones [re.match] returns. *)

From Stdlib Require Import Ascii String List Bool Arith Lia.
From stdpp Require Import base gmap strings list sorting.

Import ListNotations.

(* ------------------------------------------------------------------ *)
(** ** Python string helpers *)
(* ------------------------------------------------------------------ *)
Module Py.

Definition ascii_eqb (a b : ascii) : bool := Ascii.eqb a b.

(** [s.replace(c, d)] for one-character [c] and [d]. *)
Fixpoint replace_char (c d : ascii) (s : string) : string :=
  match s with
  | EmptyString => EmptyString
  | String x s' =>
      String (if ascii_eqb x c then d else x) (replace_char c d s')
  end.

(** [str.isspace] on one ASCII character (this is also what [\s] matches
    in a [str] pattern): TAB, LF, VT, FF, CR, the separators 0x1C-0x1F
    and SPACE. *)
Definition is_space (c : ascii) : bool :=
  let n := nat_of_ascii c in
  ((9 <=? n) && (n <=? 13)) || ((28 <=? n) && (n <=? 32)).

(** Line boundaries of [str.splitlines] among ASCII characters:
    LF, VT, FF, CR (and CR LF), 0x1C, 0x1D, 0x1E. *)
Definition is_linebreak (c : ascii) : bool :=
  let n := nat_of_ascii c in
  ((10 <=? n) && (n <=? 13)) || ((28 <=? n) && (n <=? 30)).

Definition CR : ascii := ascii_of_nat 13.
Definition LF : ascii := ascii_of_nat 10.

Fixpoint splitlines_go (s : list ascii) (cur : list ascii) : list (list ascii) :=
  match s with
  | [] => match cur with [] => [] | _ => [rev cur] end
  | c :: s' =>
      if ascii_eqb c CR then
        match s' with
        | c' :: s'' =>
            if ascii_eqb c' LF then rev cur :: splitlines_go s'' []
            else rev cur :: splitlines_go s' []
        | [] => [rev cur]
        end
      else if is_linebreak c then rev cur :: splitlines_go s' []
      else splitlines_go s' (c :: cur)
  end.

(** [content.splitlines()] *)
Definition splitlines (s : string) : list (list ascii) :=
  splitlines_go (list_ascii_of_string s) [].

(** ASCII case folding, as [re.IGNORECASE] applies it. *)
Definition lower (c : ascii) : ascii :=
  let n := nat_of_ascii c in
  if (65 <=? n) && (n <=? 90) then ascii_of_nat (n + 32) else c.

End Py.

(* ------------------------------------------------------------------ *)
(** ** A backtracking regular-expression matcher *)
(* ------------------------------------------------------------------ *)
Module Regex.
Import Py.

(** The constructs the FROM pattern uses.  Repetitions are only over a
    single character class, which is how the pattern uses them. *)
Inductive rx :=
| REps                                   (** empty, also [^] at position 0 *)
| RLit (l : list ascii)                  (** literal, case-insensitive *)
| RRep (p : ascii -> bool) (lo : nat) (hi : option nat) (greedy : bool)
| RCat (r1 r2 : rx)
| ROpt (r : rx)                          (** [(?:...)?], greedy *)
| RGrp (i : nat) (r : rx)                (** capturing group [i] *)
| REnd.                                  (** [$] without MULTILINE *)

Definition caps := list (nat * list ascii).

Definition group (c : caps) (i : nat) : option (list ascii) :=
  match find (fun e => Nat.eqb (fst e) i) c with
  | Some (_, v) => Some v
  | None => None
  end.

Fixpoint strip_ci (l s : list ascii) : option (list ascii) :=
  match l, s with
  | [], _ => Some s
  | a :: l', b :: s' => if ascii_eqb (lower a) (lower b) then strip_ci l' s' else None
  | _ :: _, [] => None
  end.

Fixpoint run (p : ascii -> bool) (s : list ascii) : nat :=
  match s with
  | [] => 0
  | c :: s' => if p c then S (run p s') else 0
  end.

(** The repetition counts, in the order the engine tries them. *)
Definition candidates (lo : nat) (hi : option nat) (greedy : bool) (n : nat) : list nat :=
  let up := match hi with Some h => Nat.min h n | None => n end in
  if up <? lo then []
  else let l := seq lo (S (up - lo)) in if greedy then rev l else l.

Fixpoint first_some {A} (f : nat -> option A) (l : list nat) : option A :=
  match l with
  | [] => None
  | j :: l' => match f j with Some r => Some r | None => first_some f l' end
  end.

Fixpoint m (r : rx) (s : list ascii) (c : caps)
         (k : list ascii -> caps -> option caps) : option caps :=
  match r with
  | REps => k s c
  | RLit l => match strip_ci l s with Some s' => k s' c | None => None end
  | RRep p lo hi g =>
      first_some (fun j => k (skipn j s) c) (candidates lo hi g (run p s))
  | RCat r1 r2 => m r1 s c (fun s' c' => m r2 s' c' k)
  | ROpt r1 => match m r1 s c k with Some x => Some x | None => k s c end
  | RGrp i r1 =>
      m r1 s c (fun s' c' => k s' ((i, firstn (length s - length s') s) :: c'))
  | REnd =>
      match s with
      | [] => k s c
      | [x] => if ascii_eqb x LF then k s c else None
      | _ => None
      end
  end.

(** The final continuation: the whole pattern matched. *)
Definition accept : list ascii -> caps -> option caps := fun _ c => Some c.

(** [re.match(pattern, line)]: anchored at the start, not at the end. *)
Definition re_match (r : rx) (s : list ascii) : option caps :=
  m r s [] accept.

Fixpoint cat (l : list rx) : rx :=
  match l with
  | [] => REps
  | [r] => r
  | r :: l' => RCat r (cat l')
  end.

Definition lit (s : string) : rx := RLit (list_ascii_of_string s).

Definition not_space (c : ascii) : bool := negb (is_space c).
Definition not_space_at (c : ascii) : bool :=
  negb (is_space c) && negb (ascii_eqb c "@"%char).
Definition not_newline (c : ascii) : bool := negb (ascii_eqb c LF).
(** [[a-f0-9]] under [re.IGNORECASE] *)
Definition hex_ci (c : ascii) : bool :=
  let n := nat_of_ascii (lower c) in
  ((48 <=? n) && (n <=? 57)) || ((97 <=? n) && (n <=? 102)).

(** The pattern as it is written in manage-images.py (the digest group
    is group 4 there). *)
Definition from_pattern_source : string :=
  "^FROM\s+(?:--platform=([^\s]+)\s+)?([^\s]+?)(?::([^\s@]+))?(?:@sha256:([a-f0-9]{64}))?\s*(?:AS\s+.*)?$".

Definition from_pattern : rx :=
  cat [ REps;
        lit "FROM"; RRep is_space 1 None true;
        ROpt (cat [lit "--platform="; RGrp 1 (RRep not_space 1 None true);
                   RRep is_space 1 None true]);
        RGrp 2 (RRep not_space 1 None false);
        ROpt (cat [lit ":"; RGrp 3 (RRep not_space_at 1 None true)]);
        ROpt (cat [lit "@sha256:"; RGrp 4 (RRep hex_ci 64 (Some 64) true)]);
        RRep is_space 0 None true;
        ROpt (cat [lit "AS"; RRep is_space 1 None true; RRep not_newline 0 None true]);
        REnd ].

End Regex.

(* ------------------------------------------------------------------ *)
(** ** manage-images.py: codec, parser, directive writer *)
(* ------------------------------------------------------------------ *)
Module ManageImages.
Import Py Regex.

(** [sanitize_image_name]: [image.replace('/', '_').replace(':', '_').replace('.', '_')] *)
Definition sanitize_image_name (image : string) : string :=
  replace_char "." "_" (replace_char ":" "_" (replace_char "/" "_" image)).

(** [sanitize_tag]: [tag.replace('.', '_').replace('/', '_')] *)
Definition sanitize_tag (tag : string) : string :=
  replace_char "/" "_" (replace_char "." "_" tag).

(** [platform.replace('/', '_')], written inline at each use. *)
Definition sanitize_platform (platform : string) : string :=
  replace_char "/" "_" platform.

(** The dict returned by [parse_dockerfile]. *)
Record Reference := {
  platform : string;
  image : string;
  tag : string;
  digest : option string;
  full_line : string }.

(** [x if x else d] for an optional group: Python's [if not x: x = d]. *)
Definition or_default (g : option (list ascii)) (d : string) : string :=
  match g with
  | Some ((_ :: _) as x) => string_of_list_ascii x
  | _ => d
  end.

Definition reference_of (c : caps) (line : list ascii) : Reference :=
  {| platform := or_default (group c 1) "linux/amd64";
     image := match group c 2 with Some x => string_of_list_ascii x | None => "" end;
     tag := or_default (group c 3) "latest";
     digest := option_map string_of_list_ascii (group c 4);
     full_line := string_of_list_ascii line |}.

Fixpoint parse_lines (lines : list (list ascii)) : option Reference :=
  match lines with
  | [] => None
  | line :: rest =>
      match re_match from_pattern line with
      | Some c => Some (reference_of c line)
      | None => parse_lines rest
      end
  end.

(** [parse_dockerfile], on the content [f.read()] returns. *)
Definition parse_dockerfile (content : string) : option Reference :=
  parse_lines (splitlines content).

Definition newline : string := String LF EmptyString.

(** [f"FROM --platform={platform} {image}:{tag}\n"] *)
Definition create_dockerfile_with_tag (image platform tag : string) : string :=
  "FROM --platform=" +:+ platform +:+ " " +:+ image +:+ ":" +:+ tag +:+ newline.

End ManageImages.

(* ------------------------------------------------------------------ *)
(** ** Paths and the filesystem *)
(* ------------------------------------------------------------------ *)
Module Fs.
Import Py.

Fixpoint split_on (sep : ascii) (s : string) : list string :=
  match s with
  | EmptyString => [EmptyString]
  | String c s' =>
      let r := split_on sep s' in
      if ascii_eqb c sep then EmptyString :: r
      else match r with
           | x :: r' => String c x :: r'
           | [] => [String c EmptyString]
           end
  end.

(** A relative path as pathlib keeps it: its [parts], the components
    between slashes with empty and ["."] components dropped. *)
Definition path := list string.

Definition keep_part (x : string) : bool :=
  negb (bool_decide (x = "")) && negb (bool_decide (x = ".")).

(** [Path(s)] for a relative [s]. *)
Definition Path (s : string) : path := List.filter keep_part (split_on "/" s).

(** [p / s]: [s] is never absolute at the call sites (no component
    written with [/] starts with a slash). *)
Definition join (p : path) (s : string) : path := p ++ Path s.

(** Files with their text, and the directories created so far. *)
Record FS := { files : gmap path string; dirs : gset path }.

(** [p.exists()]: a file or a directory. *)
Definition exists_ (fs : FS) (p : path) : bool :=
  bool_decide (is_Some (files fs !! p)) || bool_decide (p ∈ dirs fs).

Definition parent (p : path) : path := removelast p.

(** [p.mkdir(parents=True, exist_ok=True)] *)
Definition mkdir_parents (fs : FS) (p : path) : FS :=
  {| files := files fs;
     dirs := dirs fs ∪ list_to_set (map (fun n => firstn n p) (seq 1 (length p))) |}.

(** [p.write_text(content)] *)
Definition write_text (fs : FS) (p : path) (content : string) : FS :=
  {| files := <[p := content]> (files fs); dirs := dirs fs |}.

(** [open(p).read()] on a listed file. *)
Definition read (fs : FS) (p : path) : string :=
  match files fs !! p with Some s => s | None => "" end.

Definition prefix_of (base p : path) : bool :=
  bool_decide (firstn (length base) p = base) && (length base <? length p).

(** What [base.rglob("Dockerfile")] yields, in some traversal order:
    every file strictly below [base] whose last component is
    ["Dockerfile"], each once.  The order is the operating system's. *)
Definition rglob_spec (fs : FS) (base : path) (l : list path) : Prop :=
  NoDup l /\
  forall p, In p l <->
    (prefix_of base p = true /\ last p = Some "Dockerfile" /\ is_Some (files fs !! p)).

End Fs.

(* ------------------------------------------------------------------ *)
(** ** JSON output: [json.dump(digests, f, indent=2, sort_keys=True)] *)
(* ------------------------------------------------------------------ *)
Module Json.
Import Py.

Definition chr (n : nat) : string := String (ascii_of_nat n) EmptyString.
Definition bs : string := chr 92.
Definition dq : string := chr 34.

Definition hexdigit (n : nat) : string :=
  if n <? 10 then chr (48 + n) else chr (87 + n).

(** The escaping of [ensure_ascii=True]: everything outside SPACE..[~]
    is escaped, with the short forms for the usual control characters. *)
Definition escape_char (c : ascii) : string :=
  let n := nat_of_ascii c in
  if n =? 34 then bs +:+ dq
  else if n =? 92 then bs +:+ bs
  else if n =? 10 then bs +:+ "n"
  else if n =? 13 then bs +:+ "r"
  else if n =? 9 then bs +:+ "t"
  else if n =? 8 then bs +:+ "b"
  else if n =? 12 then bs +:+ "f"
  else if (32 <=? n) && (n <=? 126) then String c EmptyString
  else bs +:+ "u00" +:+ hexdigit (n / 16) +:+ hexdigit (n mod 16).

Fixpoint escape (s : string) : string :=
  match s with
  | EmptyString => EmptyString
  | String c s' => escape_char c +:+ escape s'
  end.

Definition str (s : string) : string := dq +:+ escape s +:+ dq.

Fixpoint insert_by_key {A} (x : string * A) (l : list (string * A)) : list (string * A) :=
  match l with
  | [] => [x]
  | y :: l' => if String.leb x.1 y.1 then x :: l else y :: insert_by_key x l'
  end.

(** [sorted(d.items())] by key, code point order. *)
Definition sort_items {A} (l : list (string * A)) : list (string * A) :=
  fold_right insert_by_key [] l.

Fixpoint spaces (n : nat) : string :=
  match n with 0 => "" | S n' => " " +:+ spaces n' end.

Fixpoint concat_sep (sep : string) (l : list string) : string :=
  match l with
  | [] => ""
  | [x] => x
  | x :: l' => x +:+ sep +:+ concat_sep sep l'
  end.

Definition nl : string := chr 10.

(** One dict level at indentation [lvl], given how its values print. *)
Definition obj {A} (lvl : nat) (val : nat -> A -> string) (m : gmap string A) : string :=
  match sort_items (map_to_list m) with
  | [] => "{}"
  | items =>
      "{" +:+ nl
      +:+ concat_sep ("," +:+ nl)
            (map (fun kv => spaces (2 * S lvl) +:+ str kv.1 +:+ ": " +:+ val (S lvl) kv.2) items)
      +:+ nl +:+ spaces (2 * lvl) +:+ "}"
  end.

Definition dump (d : gmap string (gmap string (gmap string string))) : string :=
  obj 0 (fun l1 (t : gmap string (gmap string string)) =>
           obj l1 (fun l2 (p : gmap string string) =>
                     obj l2 (fun _ v => str v) p) t) d.

End Json.

(* ------------------------------------------------------------------ *)
(** ** The three subcommands of manage-images.py *)
(* ------------------------------------------------------------------ *)
Module Cli.
Import Py Fs ManageImages.
Local Open Scope Z_scope.

(** One entry of images.json; [item.get(k, [])] gives [[]] for an
    absent [initial*] key. *)
Record Item := {
  item_image : string;
  item_platforms : list string;
  initialMajor : list string;
  initialMajorMinor : list string;
  initialMajorMinorPatch : list string }.

(** The state of images.json: absent, present but not a catalog
    ([json.load] or an [item["image"]] lookup raises), or a catalog. *)
Inductive images_json := CatMissing | CatInvalid | CatValid (items : list Item).

(** How a subcommand ends: it returns an exit code, or an exception
    propagates (the interpreter then exits with 1). *)
Inductive outcome :=
| Returned (code : Z) (fs : FS) (created : list path)
| Raised.


Definition versions_dir : path := Path "nix/_dockerfiles/versions".
Definition pins_dir : path := Path "nix/_dockerfiles/pins".

Definition version_path (strategy safe_image_name safe_platform : string) : path :=
  Path ("nix/_dockerfiles/versions/" +:+ strategy +:+ "/" +:+ safe_image_name
        +:+ "/" +:+ safe_platform +:+ "/Dockerfile").

Definition pin_path (safe_image safe_platform safe_tag : string) : path :=
  join (join (join (join pins_dir safe_image) safe_platform) safe_tag) "Dockerfile".

(** [if not p.exists(): p.parent.mkdir(...); p.write_text(c); created.append(p)] *)
Definition create_if_absent (st : FS * list path) (p : path) (content : string)
  : FS * list path :=
  let (fs, created) := st in
  if exists_ fs p then st
  else (write_text (mkdir_parents fs (parent p)) p content, created ++ [p]).

Definition strategies (it : Item) : list (string * list string) :=
  [("major", initialMajor it); ("major-minor", initialMajorMinor it);
   ("major-minor-patch", initialMajorMinorPatch it)].

Definition versions_item (st : FS * list path) (it : Item) : FS * list path :=
  let img := item_image it in
  let safe_image_name := sanitize_image_name img in
  fold_left (fun st (sv : string * list string) =>
    match sv.2 with
    | [] => st
    | tg :: _ =>
        fold_left (fun st plat =>
          create_if_absent st
            (version_path sv.1 safe_image_name (sanitize_platform plat))
            (create_dockerfile_with_tag img plat tg))
          (item_platforms it) st
    end) (strategies it) st.

(** [generate_versions()] *)
Definition generate_versions (cat : images_json) (fs : FS) : outcome :=
  match cat with
  | CatMissing => Returned 1 fs []
  | CatInvalid => Raised
  | CatValid items =>
      let (fs', created) := fold_left versions_item items (fs, []) in
      Returned 0 fs' created
  end.

(** First pass of [generate_pins]: one version Dockerfile. *)
Definition pin_from_version (st : FS * list path) (p : path) : FS * list path :=
  match parse_dockerfile (read st.1 p) with
  | None => st
  | Some r =>
      if bool_decide (tag r = "") then st
      else create_if_absent st
             (pin_path (sanitize_image_name (image r)) (sanitize_platform (platform r))
                       (sanitize_tag (tag r)))
             (create_dockerfile_with_tag (image r) (platform r) (tag r))
  end.

Definition all_tags (it : Item) : list string :=
  initialMajor it ++ initialMajorMinor it ++ initialMajorMinorPatch it.

(** Second pass of [generate_pins]: one catalog entry. *)
Definition pins_item (st : FS * list path) (it : Item) : FS * list path :=
  let img := item_image it in
  let safe_image_name := sanitize_image_name img in
  fold_left (fun st tg =>
    fold_left (fun st plat =>
      create_if_absent st
        (pin_path safe_image_name (sanitize_platform plat) (sanitize_tag tg))
        (create_dockerfile_with_tag img plat tg))
      (item_platforms it) st)
    (all_tags it) st.

(** [generate_pins()]; [versions] is what [versions_dir.rglob("Dockerfile")]
    yields. *)
Definition generate_pins (cat : images_json) (versions : list path) (fs : FS) : outcome :=
  let st1 := if exists_ fs versions_dir
             then fold_left pin_from_version versions (fs, [])
             else (fs, []) in
  match cat with
  | CatMissing => Returned 0 st1.1 st1.2
  | CatInvalid => Raised
  | CatValid items =>
      let st2 := fold_left pins_item items st1 in
      Returned 0 st2.1 st2.2
  end.

Definition index := gmap string (gmap string (gmap string string)).

(** [digests[image][tag][platform] = reference], creating the inner
    dicts on the way. *)
Definition set3 (d : index) (i t p v : string) : index :=
  let di := default ∅ (d !! i) in
  let dt := default ∅ (di !! t) in
  <[i := <[t := <[p := v]> dt]> di]> d.

(** The loop body of [harvest_digests] on one pin Dockerfile's text. *)
Definition harvest_step (acc : index * nat) (content : string) : index * nat :=
  match parse_dockerfile content with
  | None => acc
  | Some r =>
      match digest r with
      | Some d =>
          (set3 acc.1 (image r) (tag r) (platform r)
                (image r +:+ ":" +:+ tag r +:+ "@sha256:" +:+ d), acc.2)
      | None => (acc.1, S acc.2)
      end
  end.

Definition collect (fs : FS) (pins : list path) : index * nat :=
  fold_left (fun acc p => harvest_step acc (read fs p)) pins (∅, 0%nat).

(** [harvest_digests()]; [pins] is what [pins_dir.rglob("Dockerfile")]
    yields. *)
Definition harvest_digests (pins : list path) (fs : FS) : outcome :=
  if negb (exists_ fs pins_dir) then Returned 1 fs []
  else Returned 0 (write_text fs (Path "digests.json") (Json.dump (collect fs pins).1)) [].

End Cli.

(* ------------------------------------------------------------------ *)
(** ** Vocabulary for the statements *)
(* ------------------------------------------------------------------ *)
Module Props.
Import Py Fs ManageImages Cli.

(** Characters the codec identifies with ['_'] in image names, platforms
    and tags (['_'] itself included). *)
Definition img_unsafe (c : ascii) : bool :=
  ascii_eqb c "/" || ascii_eqb c ":" || ascii_eqb c "." || ascii_eqb c "_".
Definition plat_unsafe (c : ascii) : bool := ascii_eqb c "/" || ascii_eqb c "_".
Definition tag_unsafe (c : ascii) : bool :=
  ascii_eqb c "." || ascii_eqb c "/" || ascii_eqb c "_".

(** [a] and [b] have the same length and, position by position, the
    same character or two characters of the class [u]. *)
Definition same_up_to (u : ascii -> bool) (a b : string) : Prop :=
  Forall2 (fun x y => x = y \/ (u x = true /\ u y = true))
          (list_ascii_of_string a) (list_ascii_of_string b).

(** A key whose three components are single path components. *)
Definition plain_key (i p t : string) : Prop :=
  i <> "" /\ p <> "" /\ p <> "." /\ p <> ".." /\ t <> "".

Definition strategy_names : list string := ["major"; "major-minor"; "major-minor-patch"].

(** [digests[i][t][p]] if present. *)
Definition lookup3 (d : index) (i t p : string) : option string :=
  d !! i ≫= fun dt => dt !! t ≫= fun dp => dp !! p.

Definition ref_string (r : Reference) (d : string) : string :=
  image r +:+ ":" +:+ tag r +:+ "@sha256:" +:+ d.

(** The references that the pin files of [l] carry for key [(i, t, p)],
    in traversal order. *)
Definition refs_at (fs : FS) (l : list path) (i t p : string) : list string :=
  flat_map (fun q =>
    match parse_dockerfile (read fs q) with
    | Some r =>
        match digest r with
        | Some d =>
            if bool_decide (image r = i /\ tag r = t /\ platform r = p)
            then [ref_string r d] else []
        | None => []
        end
    | None => []
    end) l.

(** How many listed pin files parse but carry no digest. *)
Definition awaiting (fs : FS) (l : list path) : nat :=
  length (List.filter (fun q =>
    match parse_dockerfile (read fs q) with
    | Some r => match digest r with Some _ => false | None => true end
    | None => false
    end) l).

(** No two listed pin files carry different references for one key. *)
Definition consistent (fs : FS) (l : list path) : Prop :=
  forall q1 q2 r1 r2 d1 d2, In q1 l -> In q2 l ->
    parse_dockerfile (read fs q1) = Some r1 -> digest r1 = Some d1 ->
    parse_dockerfile (read fs q2) = Some r2 -> digest r2 = Some d2 ->
    image r1 = image r2 -> tag r1 = tag r2 -> platform r1 = platform r2 ->
    d1 = d2.

Definition no_space (s : string) : Prop :=
  Forall (fun c => is_space c = false) (list_ascii_of_string s).
Definition no_char (c : ascii) (s : string) : Prop :=
  Forall (fun x => x <> c) (list_ascii_of_string s).
Definition lower_hex64 (d : string) : Prop :=
  length (list_ascii_of_string d) = 64 /\
  Forall (fun c => let n := nat_of_ascii c in (48 <= n <= 57) \/ (97 <= n <= 102))
         (list_ascii_of_string d).

End Props.

Module Aux.
(** Character-wise map over a string. *)
Fixpoint smap (f : ascii -> ascii) (s : string) : string :=
  match s with
  | EmptyString => EmptyString
  | String c s' => String (f c) (smap f s')
  end.

Fixpoint has_char (c : ascii) (s : string) : bool :=
  match s with
  | EmptyString => false
  | String x s' => Py.ascii_eqb x c || has_char c s'
  end.

Definition to_us (u : ascii -> bool) (x : ascii) : ascii := if u x then "_"%char else x.
End Aux.

(** The generate loops as flat lists of [(path, content)] creations. *)
Module Jobs.
Import Fs ManageImages Cli.

Definition run_jobs (J : list (path * string)) (st : FS * list path) : FS * list path :=
  fold_left (fun st pc => create_if_absent st pc.1 pc.2) J st.

Definition item_version_jobs (it : Item) : list (path * string) :=
  flat_map (fun sv : string * list string =>
    match sv.2 with
    | [] => []
    | tg :: _ =>
        map (fun plat =>
               (version_path sv.1 (sanitize_image_name (item_image it)) (sanitize_platform plat),
                create_dockerfile_with_tag (item_image it) plat tg))
            (item_platforms it)
    end) (strategies it).

Definition item_pin_jobs (it : Item) : list (path * string) :=
  flat_map (fun tg =>
    map (fun plat =>
           (pin_path (sanitize_image_name (item_image it)) (sanitize_platform plat) (sanitize_tag tg),
            create_dockerfile_with_tag (item_image it) plat tg))
        (item_platforms it)) (all_tags it).

Definition version_pin_job (content : string) : option (path * string) :=
  match parse_dockerfile content with
  | None => None
  | Some r =>
      if bool_decide (tag r = "") then None
      else Some (pin_path (sanitize_image_name (image r)) (sanitize_platform (platform r))
                          (sanitize_tag (tag r)),
                 create_dockerfile_with_tag (image r) (platform r) (tag r))
  end.

Definition opt_list {A} (o : option A) : list A :=
  match o with Some x => [x] | None => [] end.

Definition under_pins (q : path) : Prop := firstn 3 q = pins_dir.
End Jobs.

(** Concrete trees used by the witnesses and counterexamples. *)
Module Examples.
Import Py Fs ManageImages Cli.

(** [{"image": "busybox", "platforms": ["linux/amd64"], "initialMajor": ["1"]}] *)
Definition busybox : Item :=
  {| item_image := "busybox"; item_platforms := ["linux/amd64"];
     initialMajor := ["1"]; initialMajorMinor := []; initialMajorMinorPatch := [] |}.

Definition d64 : string :=
  "aaaaaaaaaaaaaaaaaaaaaaaaaaaaaaaaaaaaaaaaaaaaaaaaaaaaaaaaaaaaaaaa".
Definition d64' : string :=
  "bbbbbbbbbbbbbbbbbbbbbbbbbbbbbbbbbbbbbbbbbbbbbbbbbbbbbbbbbbbbbbbb".

Definition v_busybox : path :=
  ["nix"; "_dockerfiles"; "versions"; "major"; "busybox"; "linux_amd64"; "Dockerfile"].
Definition p_busybox : path :=
  ["nix"; "_dockerfiles"; "pins"; "busybox"; "linux_amd64"; "1"; "Dockerfile"].
Definition v_old : path :=
  ["nix"; "_dockerfiles"; "versions"; "major"; "old"; "linux_amd64"; "Dockerfile"].
Definition p_old : path :=
  ["nix"; "_dockerfiles"; "pins"; "old"; "linux_amd64"; "1"; "Dockerfile"].
(** A pin directory written by the legacy harvest-tags.py for a version
    Dockerfile without [--platform]. *)
Definition p_busybox_default : path :=
  ["nix"; "_dockerfiles"; "pins"; "busybox"; "default"; "1"; "Dockerfile"].

Definition parents (ps : list path) : gset path :=
  list_to_set (flat_map (fun p => map (fun n => firstn n p) (seq 1 (length p - 1))) ps).

Definition tree (fl : list (path * string)) : FS :=
  {| files := list_to_map fl; dirs := parents (map fst fl) |}.

(** The version file after the bot advanced its tag, and the pin after
    the bot appended a digest. *)
Definition bumped_text : string := create_dockerfile_with_tag "busybox" "linux/amd64" "1.36".
Definition pinned_text : string :=
  "FROM --platform=linux/amd64 busybox:1@sha256:" +:+ d64 +:+ ManageImages.newline.

Definition fs_bumped : FS :=
  tree [(v_busybox, bumped_text); (p_busybox, pinned_text)].

(** busybox is in the catalog; "old" was removed from it. *)
Definition fs_orphans : FS :=
  tree [(v_busybox, create_dockerfile_with_tag "busybox" "linux/amd64" "1");
        (v_old, create_dockerfile_with_tag "old" "linux/amd64" "1");
        (p_old, create_dockerfile_with_tag "old" "linux/amd64" "1")].

(** "old" is gone from the catalog and from the versions tree. *)
Definition fs_orphan_pin : FS :=
  tree [(v_busybox, create_dockerfile_with_tag "busybox" "linux/amd64" "1");
        (p_old, create_dockerfile_with_tag "old" "linux/amd64" "1")].

(** Two pin files that parse to the same (image, tag, platform) with
    different digests. *)
Definition fs_conflict : FS :=
  tree [(p_busybox, pinned_text);
        (p_busybox_default, "FROM busybox:1@sha256:" +:+ d64' +:+ ManageImages.newline)].

(** A pin whose FROM line has a digest but neither a tag nor a
    platform, and a version file with an untagged image. *)
Definition untagged_pin : string := "FROM busybox@sha256:" +:+ d64 +:+ ManageImages.newline.
Definition untagged_version : string := "FROM busybox" +:+ ManageImages.newline.

Definition digest_at (o : outcome) : option string :=
  match o with Returned _ fs _ => files fs !! Path "digests.json" | Raised => None end.
End Examples.

(* ================================================================== *)
(** * Proofs *)
(* ================================================================== *)

(** ** The path codec *)
(* ------------------------------------------------------------------ *)
Module FsRemove.
Import Fs.

(** [q] lies strictly below [d]. *)
Definition below (d q : path) : bool :=
  bool_decide (firstn (length d) q = d) && (length d <? length q).

(** Nothing is left in directory [d]. *)
Definition dir_empty (fs : FS) (d : path) : bool :=
  forallb (fun q => negb (below d q)) (map fst (map_to_list (files fs))) &&
  forallb (fun q => negb (below d q)) (elements (dirs fs)).

(** [p.unlink()]: [None] when there is no such file (the exception
    propagates). *)
Definition unlink (fs : FS) (p : path) : option FS :=
  match files fs !! p with
  | Some _ => Some {| files := delete p (files fs); dirs := dirs fs |}
  | None => None
  end.

(** [d.rmdir()]: [None] for the [OSError] it raises on a missing or
    non-empty directory. *)
Definition rmdir (fs : FS) (d : path) : option FS :=
  if bool_decide (d ∈ dirs fs) && dir_empty fs d
  then Some {| files := files fs; dirs := dirs fs ∖ {[d]} |}
  else None.

End FsRemove.

(* ------------------------------------------------------------------ *)
Module GenerateVersionDockerfiles.
Import Py Fs ManageImages Cli FsRemove.

(** The version and pin paths, as the script writes them with f-strings. *)
Definition version_file (strategy safe_image_name safe_platform : string) : path :=
  Path ("nix/_dockerfiles/versions/" +:+ strategy +:+ "/" +:+ safe_image_name
        +:+ "/" +:+ safe_platform +:+ "/Dockerfile").

Definition pin_file (safe_image_name safe_platform safe_tag : string) : path :=
  Path ("nix/_dockerfiles/pins/" +:+ safe_image_name +:+ "/" +:+ safe_platform
        +:+ "/" +:+ safe_tag +:+ "/Dockerfile").

Definition item_version_paths (it : Item) : list path :=
  flat_map (fun sv : string * list string =>
    match sv.2 with
    | [] => []
    | _ :: _ =>
        map (fun plat => version_file sv.1 (sanitize_image_name (item_image it))
                                     (sanitize_platform plat))
            (item_platforms it)
    end) (strategies it).

(** [get_expected_version_paths(images)] *)
Definition get_expected_version_paths (items : list Item) : gset path :=
  list_to_set (flat_map item_version_paths items).

Definition item_pin_paths (it : Item) : list path :=
  flat_map (fun tg =>
    map (fun plat => pin_file (sanitize_image_name (item_image it)) (sanitize_platform plat)
                              (sanitize_tag tg))
        (item_platforms it)) (all_tags it).

(** [get_expected_pin_paths(images)] *)
Definition get_expected_pin_paths (items : list Item) : gset path :=
  list_to_set (flat_map item_pin_paths items).

(** [get_existing_dockerfiles(base_dir)], given what [rglob] lists. *)
Definition get_existing_dockerfiles (fs : FS) (base : path) (listing : list path) : gset path :=
  if exists_ fs base then list_to_set listing else ∅.

(** The [while] loop that removes the emptied parent directories: it
    stops at [base_dir], at a path that does not exist, or at the first
    [rmdir] that fails.  Each step shortens the path, so [fuel] steps
    with [fuel] the length of the path cover every run of the loop. *)
Fixpoint prune (fuel : nat) (base d : path) (fs : FS) : FS :=
  match fuel with
  | 0 => fs
  | S n =>
      if bool_decide (d <> base) && exists_ fs d then
        match rmdir fs d with
        | Some fs' => prune n base (parent d) fs'
        | None => fs
        end
      else fs
  end.

(** [remove_orphaned_dockerfiles(expected, existing, base_dir)];
    [orphaned] is the set [existing - expected] in the order the loop
    visits it.  [None] when an exception propagates. *)
Definition remove_one (base : path) (acc : option (FS * list path)) (p : path)
  : option (FS * list path) :=
  match acc with
  | None => None
  | Some (fs, removed) =>
      match unlink fs p with
      | None => None
      | Some fs1 => Some (prune (length p) base (parent p) fs1, removed ++ [p])
      end
  end.

Definition remove_orphaned_dockerfiles (orphaned : list path) (base : path) (fs : FS)
  : option (FS * list path) :=
  fold_left (remove_one base) orphaned (Some (fs, [])).

(** The creation loops of [main] for one catalog entry: its version
    Dockerfiles, then its pin Dockerfiles. *)
Definition main_item (st : FS * list path) (it : Item) : FS * list path :=
  let img := item_image it in
  let safe_image_name := sanitize_image_name img in
  let st := fold_left (fun st (sv : string * list string) =>
    match sv.2 with
    | [] => st
    | tg :: _ =>
        fold_left (fun st plat =>
          create_if_absent st (version_file sv.1 safe_image_name (sanitize_platform plat))
                           (create_dockerfile_with_tag img plat tg))
          (item_platforms it) st
    end) (strategies it) st in
  fold_left (fun st tg =>
    fold_left (fun st plat =>
      create_if_absent st (pin_file safe_image_name (sanitize_platform plat) (sanitize_tag tg))
                       (create_dockerfile_with_tag img plat tg))
      (item_platforms it) st) (all_tags it) st.

(** [main()]: [orphans_v] and [orphans_p] are the sets
    [existing - expected] of the versions and pins trees, in the order
    their loops visit them.  [sys.exit(0)] is exit code 0. *)
Definition main (cat : images_json) (orphans_v orphans_p : list path) (fs : FS) : outcome :=
  match cat with
  | CatMissing => Returned 1 fs []
  | CatInvalid => Raised
  | CatValid items =>
      match remove_orphaned_dockerfiles orphans_v versions_dir fs with
      | None => Raised
      | Some (fs1, _) =>
          match remove_orphaned_dockerfiles orphans_p pins_dir fs1 with
          | None => Raised
          | Some (fs2, _) =>
              let st := fold_left main_item items (fs2, []) in
              Returned 0 st.1 st.2
          end
      end
  end.

(** [orphans] lists the set [existing - expected], each element once,
    where [existing] is what [get_existing_dockerfiles] returns. *)
Definition orphan_order (fs : FS) (base : path) (expected : gset path) (orphans : list path) : Prop :=
  exists listing, (if exists_ fs base then rglob_spec fs base listing else True) /\
    NoDup orphans /\
    forall p, In p orphans <-> p ∈ get_existing_dockerfiles fs base listing /\ p ∉ expected.

End GenerateVersionDockerfiles.

(* ------------------------------------------------------------------ *)
Module HarvestTags.
Import Py Regex Fs ManageImages Cli.

(** The pattern of harvest-tags.py: the digest is matched but not
    captured, so there are only groups 1 to 3. *)
Definition from_pattern_tags : rx :=
  cat [ REps;
        lit "FROM"; RRep is_space 1 None true;
        ROpt (cat [lit "--platform="; RGrp 1 (RRep not_space 1 None true);
                   RRep is_space 1 None true]);
        RGrp 2 (RRep not_space 1 None false);
        ROpt (cat [lit ":"; RGrp 3 (RRep not_space_at 1 None true)]);
        ROpt (cat [lit "@sha256:"; RRep hex_ci 64 (Some 64) true]);
        RRep is_space 0 None true;
        ROpt (cat [lit "AS"; RRep is_space 1 None true; RRep not_newline 0 None true]);
        REnd ].

(** The dict harvest-tags' [parse_dockerfile] returns; [None] where
    [match.group(i)] is [None]. *)
Record TagsRef := {
  t_platform : option string;
  t_image : string;
  t_tag : option string;
  t_full_line : string
}.

Definition tags_ref_of (c : caps) (line : list ascii) : TagsRef :=
  {| t_platform := option_map string_of_list_ascii (group c 1);
     t_image := match group c 2 with Some x => string_of_list_ascii x | None => "" end;
     t_tag := option_map string_of_list_ascii (group c 3);
     t_full_line := string_of_list_ascii line |}.

Fixpoint parse_lines_tags (lines : list (list ascii)) : option TagsRef :=
  match lines with
  | [] => None
  | line :: rest =>
      match re_match from_pattern_tags line with
      | Some c => Some (tags_ref_of c line)
      | None => parse_lines_tags rest
      end
  end.

Definition parse_dockerfile_tags (content : string) : option TagsRef :=
  parse_lines_tags (splitlines content).

(** [sanitize_for_path(value)]: [None] for [None] and for the empty
    string. *)
Definition sanitize_for_path (value : option string) : option string :=
  match value with
  | Some v =>
      if bool_decide (v = "") then None
      else Some (replace_char "." "_" (replace_char ":" "_" (replace_char "/" "_" v)))
  | None => None
  end.

(** The body of the creation loop of [main] on one version Dockerfile.
    [None] when [pins_dir / safe_image] raises, which happens when
    [sanitize_for_path] returns [None] for the image. *)
Definition create_pin_step (st : FS * list path) (p : path) : option (FS * list path) :=
  match parse_dockerfile_tags (read st.1 p) with
  | None => Some st
  | Some parsed =>
      match t_tag parsed with
      | None => Some st
      | Some tag =>
          if bool_decide (tag = "") then Some st
          else
            let image := t_image parsed in
            let platform := t_platform parsed in
            let platform_set :=
              match platform with Some pl => negb (bool_decide (pl = "")) | None => false end in
            match sanitize_for_path (Some image) with
            | None => None
            | Some safe_image =>
                let safe_platform :=
                  if platform_set then default "" (sanitize_for_path platform) else "default" in
                let safe_tag := default "" (sanitize_for_path (Some tag)) in
                let pin_dockerfile_path :=
                  join (join (join (join pins_dir safe_image) safe_platform) safe_tag) "Dockerfile" in
                let dockerfile_content :=
                  if platform_set
                  then "FROM --platform=" +:+ default "" platform +:+ " " +:+ image +:+ ":" +:+ tag
                       +:+ newline
                  else "FROM " +:+ image +:+ ":" +:+ tag +:+ newline in
                Some (create_if_absent st pin_dockerfile_path dockerfile_content)
            end
      end
  end.

(** The creation loop over what [versions_dir.rglob("Dockerfile")] yields. *)
Definition create_pins (listing : list path) (st : FS * list path) : option (FS * list path) :=
  fold_left (fun acc p => match acc with Some st => create_pin_step st p | None => None end)
            listing (Some st).

(** The loop body of [get_valid_pins_from_versions] on one version
    Dockerfile's text; [None] when [Path / None] raises. *)
Definition valid_pins_step (acc : option (gset path)) (content : string) : option (gset path) :=
  match acc with
  | None => None
  | Some valid_pins =>
      match parse_dockerfile_tags content with
      | None => Some valid_pins
      | Some parsed =>
          match t_tag parsed with
          | None => Some valid_pins
          | Some tag =>
              if bool_decide (tag = "") then Some valid_pins
              else
                let platform := t_platform parsed in
                let platform_set :=
                  match platform with Some pl => negb (bool_decide (pl = "")) | None => false end in
                match sanitize_for_path (Some (t_image parsed)) with
                | None => None
                | Some safe_image =>
                    let safe_platform :=
                      if platform_set then default "" (sanitize_for_path platform) else "default" in
                    let safe_tag := default "" (sanitize_for_path (Some tag)) in
                    Some ({[join (join (join pins_dir safe_image) safe_platform) safe_tag]}
                          ∪ valid_pins)
                end
          end
      end
  end.

(** [get_valid_pins_from_versions()]; [listing] is what
    [versions_dir.rglob("Dockerfile")] yields. *)
Definition get_valid_pins_from_versions (fs : FS) (listing : list path) : option (gset path) :=
  if negb (exists_ fs versions_dir) then Some ∅
  else fold_left (fun acc p => valid_pins_step acc (read fs p)) listing (Some ∅).

End HarvestTags.

(* ------------------------------------------------------------------ *)
Module CollectDigests.
Import Fs ManageImages Cli.

(** collect-digests.py has its own copy of [parse_dockerfile], with the
    same pattern and defaults as manage-images.py; it omits [full_line],
    which no caller reads, so [ManageImages.parse_dockerfile] stands for it. *)

(** The loop body of [collect_digests] on one pin Dockerfile's text: a
    reference without a digest is stored as [image:tag]. *)
Definition collect_step (d : index) (content : string) : index :=
  match parse_dockerfile content with
  | None => d
  | Some r =>
      set3 d (image r) (tag r) (platform r)
           (match digest r with
            | Some dg => image r +:+ ":" +:+ tag r +:+ "@sha256:" +:+ dg
            | None => image r +:+ ":" +:+ tag r
            end)
  end.

(** [collect_digests()]; [pins] is what [pins_dir.rglob("Dockerfile")]
    yields. *)
Definition collect_digests (fs : FS) (pins : list path) : index :=
  if negb (exists_ fs pins_dir) then ∅
  else fold_left (fun d p => collect_step d (read fs p)) pins ∅.

(** [main()]: it writes digests.json and returns, so the exit code is 0. *)
Definition main (pins : list path) (fs : FS) : outcome :=
  Returned 0 (write_text fs (Path "digests.json") (Json.dump (collect_digests fs pins))) [].

End CollectDigests.

(** Vocabulary of the statements about the scripts above. *)
Module MatchDefs.
Import Py Regex.

(** What one successful path through [m] does: the text it consumes and
    the groups it records. *)
Inductive mt : rx -> list ascii -> caps -> list ascii -> caps -> Prop :=
| mt_eps s c : mt REps s c s c
| mt_lit l s s' c : strip_ci l s = Some s' -> mt (RLit l) s c s' c
| mt_rep p lo hi g s c j :
    In j (candidates lo hi g (run p s)) -> mt (RRep p lo hi g) s c (skipn j s) c
| mt_cat r1 r2 s c s1 c1 s2 c2 :
    mt r1 s c s1 c1 -> mt r2 s1 c1 s2 c2 -> mt (RCat r1 r2) s c s2 c2
| mt_opt_some r s c s' c' : mt r s c s' c' -> mt (ROpt r) s c s' c'
| mt_opt_none r s c : mt (ROpt r) s c s c
| mt_grp i r s c s' c' :
    mt r s c s' c' -> mt (RGrp i r) s c s' ((i, firstn (length s - length s') s) :: c')
| mt_end s c : s = [] \/ s = [LF] -> mt REnd s c s c.

(** The groups of a pattern: each is a repetition of one class, and what
    it may capture satisfies [P]. *)
Fixpoint grp_ok (P : nat -> list ascii -> Prop) (r : rx) : Prop :=
  match r with
  | RCat a b => grp_ok P a /\ grp_ok P b
  | ROpt a => grp_ok P a
  | RGrp i (RRep p lo hi _) =>
      forall v, lo <= length v -> (match hi with Some h => length v <= h | None => True end) ->
                Forall (fun x => p x = true) v -> P i v
  | RGrp _ _ => False
  | _ => True
  end.

(** The groups a match always records. *)
Fixpoint must (i : nat) (r : rx) : Prop :=
  match r with
  | RCat a b => must i a \/ must i b
  | RGrp j _ => j = i
  | _ => False
  end.

(** What each group of the FROM pattern captures. *)
Definition from_groups (i : nat) (v : list ascii) : Prop :=
  v <> [] /\
  match i with
  | 1 | 2 => Forall (fun x => is_space x = false) v
  | 3 => Forall (fun x => is_space x = false /\ x <> "@"%char) v
  | 4 => length v = 64 /\ Forall (fun x => hex_ci x = true) v
  | _ => True
  end.

End MatchDefs.

Module GenDefs.
Import Fs Cli Jobs.

(** Every directory above a file is recorded. *)
Definition wf (fs : FS) : Prop :=
  forall p, is_Some (files fs !! p) -> forall n, 0 < n < length p -> firstn n p ∈ dirs fs.

Definition dockerfiles_below (base : path) (fl : list (path * string)) : list path :=
  List.filter (fun p => prefix_of base p && bool_decide (last p = Some "Dockerfile")) (map fst fl).

(** The files the legacy main would create, item by item: the version
    files, then the pin files. *)
Definition legacy_jobs (items : list Item) : list (path * string) :=
  flat_map (fun it => item_version_jobs it ++ item_pin_jobs it) items.

End GenDefs.

Module TagsDefs.
Import Regex Props HarvestTags.

(** Removing capturing group [i] from a pattern. *)
Fixpoint drop_grp (i : nat) (r : rx) : rx :=
  match r with
  | RCat r1 r2 => RCat (drop_grp i r1) (drop_grp i r2)
  | ROpt r1 => ROpt (drop_grp i r1)
  | RGrp j r1 => if Nat.eqb j i then drop_grp i r1 else RGrp j (drop_grp i r1)
  | r => r
  end.

Definition strip (i : nat) (c : caps) : caps := List.filter (fun e => negb (Nat.eqb e.1 i)) c.


End TagsDefs.

Module JsonDefs.
Import Py.

(** A character [json.dump] may write with [ensure_ascii=True] and
    [indent=2]: printable ASCII or the line feed of the indentation. *)
Definition out_char (c : ascii) : Prop := c = LF \/ 32 <= nat_of_ascii c <= 126.

Definition out_ok (s : string) : Prop := Forall out_char (list_ascii_of_string s).

End JsonDefs.

Module CodecFacts.
Import Py Fs ManageImages Cli Props Aux.

Lemma ascii_eqb_true a b : ascii_eqb a b = true <-> a = b.
Proof. unfold ascii_eqb. apply Ascii.eqb_eq. Qed.

Lemma replace_char_smap c d s :
  replace_char c d s = smap (fun x => if ascii_eqb x c then d else x) s.
Proof. induction s as [|x s IH]; simpl; [done | by rewrite IH]. Qed.

Lemma smap_smap f g s : smap f (smap g s) = smap (fun x => f (g x)) s.
Proof. induction s as [|x s IH]; simpl; [done | by rewrite IH]. Qed.

Lemma smap_ext f g s : (forall x, f x = g x) -> smap f s = smap g s.
Proof. intros Hfg. induction s as [|x s IH]; simpl; [done | by rewrite Hfg, IH]. Qed.

Lemma sanitize_image_name_smap i : sanitize_image_name i = smap (to_us img_unsafe) i.
Proof.
  unfold sanitize_image_name. rewrite !replace_char_smap, !smap_smap.
  apply smap_ext. intros x. destruct x as [[] [] [] [] [] [] [] []]; reflexivity.
Qed.

Lemma sanitize_tag_smap t : sanitize_tag t = smap (to_us tag_unsafe) t.
Proof.
  unfold sanitize_tag. rewrite !replace_char_smap, !smap_smap.
  apply smap_ext. intros x. destruct x as [[] [] [] [] [] [] [] []]; reflexivity.
Qed.

Lemma sanitize_platform_smap p : sanitize_platform p = smap (to_us plat_unsafe) p.
Proof.
  unfold sanitize_platform. rewrite !replace_char_smap.
  apply smap_ext. intros x. destruct x as [[] [] [] [] [] [] [] []]; reflexivity.
Qed.

Lemma to_us_eq_iff u x y :
  u "_"%char = true ->
  to_us u x = to_us u y <-> x = y \/ (u x = true /\ u y = true).
Proof.
  intros Hu. unfold to_us.
  destruct (u x) eqn:Ex, (u y) eqn:Ey; split; intros H.
  - by right.
  - done.
  - subst y. congruence.
  - destruct H as [->|[_ ?]]; congruence.
  - subst x. congruence.
  - destruct H as [->|[? _]]; congruence.
  - by left.
  - destruct H as [->|[? _]]; congruence.
Qed.

Lemma smap_eq_iff u a b :
  u "_"%char = true ->
  smap (to_us u) a = smap (to_us u) b <-> same_up_to u a b.
Proof.
  intros Hu. unfold same_up_to. revert b.
  induction a as [|x a IH]; intros [|y b]; simpl; split; intros H;
    try discriminate; try (inversion H; fail).
  - constructor.
  - constructor.
  - injection H as Hxy Hab. constructor.
    + by apply to_us_eq_iff.
    + by apply IH.
  - inversion H as [|? ? ? ? Hxy Hab]; subst. f_equal.
    + by apply to_us_eq_iff.
    + by apply IH.
Qed.

Lemma split_on_single sep x :
  has_char sep x = false -> split_on sep x = [x].
Proof.
  induction x as [|c x IH]; simpl; [done|].
  intros H. apply orb_false_iff in H as [Hc Hx].
  rewrite IH by done. by rewrite Hc.
Qed.

Lemma split_on_cons sep x y :
  has_char sep x = false ->
  split_on sep (x +:+ String sep y) = x :: split_on sep y.
Proof.
  induction x as [|c x IH]; simpl.
  - intros _. unfold ascii_eqb. by rewrite Ascii.eqb_refl.
  - intros H. apply orb_false_iff in H as [Hc Hx].
    rewrite IH by done. by rewrite Hc.
Qed.

Lemma has_char_smap u s :
  u "/"%char = true -> has_char "/" (smap (to_us u) s) = false.
Proof.
  intros Hu. induction s as [|x s IH]; simpl; [done|].
  rewrite IH, orb_false_r. unfold to_us.
  destruct (u x) eqn:E; [reflexivity|].
  destruct (ascii_eqb x "/") eqn:E2; [|done].
  apply ascii_eqb_true in E2. subst. congruence.
Qed.

Lemma smap_empty f s : smap f s = "" <-> s = "".
Proof. destruct s; simpl; split; congruence. Qed.

Lemma keep_part_smap u s :
  s <> "" -> (s = "." -> u "."%char = true) -> keep_part (smap (to_us u) s) = true.
Proof.
  intros Hne Hdot. unfold keep_part.
  apply andb_true_iff. rewrite !negb_true_iff, !bool_decide_eq_false. split.
  - by rewrite smap_empty.
  - intros H. destruct s as [|c [|c' s']]; simpl in H; [done| |discriminate].
    injection H as H. unfold to_us in H.
    destruct (u c) eqn:E; [discriminate|]. subst.
    specialize (Hdot eq_refl). congruence.
Qed.

Lemma Path_no_slash x : has_char "/" x = false -> keep_part x = true -> Path x = [x].
Proof. intros H K. unfold Path. rewrite split_on_single by done. simpl. by rewrite K. Qed.

Lemma pin_path_parts a b c :
  has_char "/" a = false -> has_char "/" b = false -> has_char "/" c = false ->
  keep_part a = true -> keep_part b = true -> keep_part c = true ->
  pin_path a b c = ["nix"; "_dockerfiles"; "pins"; a; b; c; "Dockerfile"].
Proof.
  intros Ha Hb Hc Ka Kb Kc. unfold pin_path, join.
  rewrite !Path_no_slash by done. reflexivity.
Qed.

Lemma version_path_parts s a b :
  has_char "/" s = false -> has_char "/" a = false -> has_char "/" b = false ->
  keep_part s = true -> keep_part a = true -> keep_part b = true ->
  version_path s a b = ["nix"; "_dockerfiles"; "versions"; s; a; b; "Dockerfile"].
Proof.
  intros Hs Ha Hb Ks Ka Kb. unfold version_path, Path.
  change ("nix/_dockerfiles/versions/" +:+ s +:+ "/" +:+ a +:+ "/" +:+ b +:+ "/Dockerfile")
    with ("nix" +:+ String "/" ("_dockerfiles" +:+ String "/" ("versions" +:+ String "/"
          (s +:+ String "/" (a +:+ String "/" (b +:+ String "/" "Dockerfile")))))).
  rewrite !split_on_cons by done.
  rewrite split_on_single by reflexivity. simpl.
  by rewrite Ks, Ka, Kb.
Qed.


Lemma keep_part_strategy s : In s strategy_names -> keep_part s = true /\ has_char "/" s = false.
Proof. intros [<-|[<-|[<-|[]]]]; split; reflexivity. Qed.

Lemma sanitized_parts i p t :
  plain_key i p t ->
  has_char "/" (sanitize_image_name i) = false /\ keep_part (sanitize_image_name i) = true /\
  has_char "/" (sanitize_platform p) = false /\ keep_part (sanitize_platform p) = true /\
  has_char "/" (sanitize_tag t) = false /\ keep_part (sanitize_tag t) = true.
Proof.
  intros (Hi & Hp & Hp1 & Hp2 & Ht).
  rewrite sanitize_image_name_smap, sanitize_platform_smap, sanitize_tag_smap.
  repeat split; try (apply has_char_smap; reflexivity); apply keep_part_smap;
    try done; intros ->; done.
Qed.

(** C1 (amended).  The codec identifies exactly the keys that agree
    character by character up to the characters it maps to ['_']: two
    pin keys share a pin path iff their images agree up to
    ['/' ':' '.' '_'], their platforms up to ['/' '_'] and their tags up to
    ['.' '/' '_']; two version keys share a version path iff their
    strategies are equal and image and platform agree in the same way.
    Components are nonempty and the platform is not ["."] or [".."]. *)
Theorem sanitized_paths_collide_iff (i1 p1 t1 i2 p2 t2 : string) :
  plain_key i1 p1 t1 -> plain_key i2 p2 t2 ->
  (pin_path (sanitize_image_name i1) (sanitize_platform p1) (sanitize_tag t1) =
   pin_path (sanitize_image_name i2) (sanitize_platform p2) (sanitize_tag t2) <->
   same_up_to img_unsafe i1 i2 /\ same_up_to plat_unsafe p1 p2 /\ same_up_to tag_unsafe t1 t2) /\
  (forall s1 s2, In s1 strategy_names -> In s2 strategy_names ->
   (version_path s1 (sanitize_image_name i1) (sanitize_platform p1) =
    version_path s2 (sanitize_image_name i2) (sanitize_platform p2) <->
    s1 = s2 /\ same_up_to img_unsafe i1 i2 /\ same_up_to plat_unsafe p1 p2)).
Proof.
  intros K1 K2.
  destruct (sanitized_parts _ _ _ K1) as (A1 & B1 & C1 & D1 & E1 & F1).
  destruct (sanitized_parts _ _ _ K2) as (A2 & B2 & C2 & D2 & E2 & F2).
  rewrite <- (smap_eq_iff img_unsafe), <- (smap_eq_iff plat_unsafe), <- (smap_eq_iff tag_unsafe)
    by reflexivity.
  rewrite <- !sanitize_image_name_smap, <- !sanitize_platform_smap, <- !sanitize_tag_smap.
  split.
  - rewrite !pin_path_parts by done. split.
    + intros H. injection H as Ha Hb Hc. by repeat split.
    + intros (Ha & Hb & Hc). by rewrite Ha, Hb, Hc.
  - intros s1 s2 S1 S2.
    destruct (keep_part_strategy s1 S1) as [G1 H1].
    destruct (keep_part_strategy s2 S2) as [G2 H2].
    rewrite <- (smap_eq_iff img_unsafe), <- (smap_eq_iff plat_unsafe) by reflexivity.
    rewrite <- !sanitize_image_name_smap, <- !sanitize_platform_smap.
    rewrite !version_path_parts by done. split.
    + intros H. injection H as Ha Hb Hc. by repeat split.
    + intros (Ha & Hb & Hc). by rewrite Ha, Hb, Hc.
Qed.

(** C1 (counterexample).  Two distinct image names, here
    ["docker.io/library/nginx"] and ["docker_io/library/nginx"], are
    sanitized to the same pin path (and the same version path). *)
Lemma codec_not_injective :
  ("docker.io/library/nginx", "linux/amd64", "1") <>
    ("docker_io/library/nginx", "linux/amd64", "1") /\
  pin_path (sanitize_image_name "docker.io/library/nginx") (sanitize_platform "linux/amd64")
           (sanitize_tag "1") =
  pin_path (sanitize_image_name "docker_io/library/nginx") (sanitize_platform "linux/amd64")
           (sanitize_tag "1") /\
  version_path "major" (sanitize_image_name "docker.io/library/nginx")
               (sanitize_platform "linux/amd64") =
  version_path "major" (sanitize_image_name "docker_io/library/nginx")
               (sanitize_platform "linux/amd64").
Proof. split; [intros H; discriminate H | split; reflexivity]. Qed.

(** Witness for [sanitized_paths_collide_iff]. *)
Lemma sanitized_paths_collide_iff_witness :
  plain_key "a.b" "linux/amd64" "1.0" /\ plain_key "a_b" "linux_amd64" "1_0" /\
  pin_path (sanitize_image_name "a.b") (sanitize_platform "linux/amd64") (sanitize_tag "1.0") =
  pin_path (sanitize_image_name "a_b") (sanitize_platform "linux_amd64") (sanitize_tag "1_0").
Proof.
  assert (K1 : plain_key "a.b" "linux/amd64" "1.0") by (repeat split; discriminate).
  assert (K2 : plain_key "a_b" "linux_amd64" "1_0") by (repeat split; discriminate).
  split; [exact K1|]. split; [exact K2|].
  apply (proj1 (sanitized_paths_collide_iff "a.b" "linux/amd64" "1.0" "a_b" "linux_amd64" "1_0" K1 K2)).
  unfold same_up_to; simpl.
  repeat split;
    repeat (apply List.Forall2_cons; [first [left; reflexivity | right; split; reflexivity] |]);
    apply List.Forall2_nil.
Defined.

End CodecFacts.

(** ** The generate stages as job lists *)
Module JobFacts.
Import Py Fs ManageImages Cli Jobs.

Lemma fold_left_flat_map {A B C} (g : A -> B -> A) (h : C -> list B) (l : list C) (a : A) :
  fold_left (fun a x => fold_left g (h x) a) l a = fold_left g (flat_map h l) a.
Proof.
  revert a. induction l as [|x l IH]; intros a; simpl; [done|].
  by rewrite fold_left_app, IH.
Qed.

Lemma fold_left_ext_in {A B} (f g : A -> B -> A) (l : list B) (a : A) :
  (forall a x, In x l -> f a x = g a x) -> fold_left f l a = fold_left g l a.
Proof.
  revert a. induction l as [|x l IH]; intros a H; simpl; [done|].
  rewrite H by (left; done). apply IH. intros a' y Hy. apply H. by right.
Qed.

Lemma fold_left_map' {A B C} (g : A -> B -> A) (h : C -> B) (l : list C) (a : A) :
  fold_left (fun a x => g a (h x)) l a = fold_left g (map h l) a.
Proof. revert a. induction l as [|x l IH]; intros a; simpl; [done|]. apply IH. Qed.

Lemma versions_item_jobs st it : versions_item st it = run_jobs (item_version_jobs it) st.
Proof.
  unfold versions_item, run_jobs, item_version_jobs.
  rewrite <- fold_left_flat_map. apply fold_left_ext_in. intros st' sv _.
  destruct sv as [strategy [|tg tags]]; simpl; [done|].
  by rewrite <- fold_left_map'.
Qed.

Lemma pins_item_jobs st it : pins_item st it = run_jobs (item_pin_jobs it) st.
Proof.
  unfold pins_item, run_jobs, item_pin_jobs.
  rewrite <- fold_left_flat_map. apply fold_left_ext_in. intros st' tg _.
  by rewrite <- fold_left_map'.
Qed.

Lemma items_jobs (step : FS * list path -> Item -> FS * list path) (jobs : Item -> list (path * string))
      items st :
  (forall st it, step st it = run_jobs (jobs it) st) ->
  fold_left step items st = run_jobs (flat_map jobs items) st.
Proof.
  intros H. unfold run_jobs. rewrite <- fold_left_flat_map.
  apply fold_left_ext_in. intros st' it _. apply H.
Qed.

Lemma pin_from_version_job st p :
  pin_from_version st p = run_jobs (opt_list (version_pin_job (read st.1 p))) st.
Proof.
  unfold pin_from_version, version_pin_job.
  destruct (parse_dockerfile (read st.1 p)) as [r|]; [|done].
  by case_bool_decide.
Qed.

(** Creation only ever adds a file where nothing exists. *)
Lemma create_if_absent_keeps st p c q v :
  files st.1 !! q = Some v -> files (create_if_absent st p c).1 !! q = Some v.
Proof.
  destruct st as [fs cr]. unfold create_if_absent. simpl. intros Hq.
  destruct (exists_ fs p) eqn:E; [done|]. simpl.
  unfold exists_ in E. apply orb_false_iff in E as [E _].
  apply bool_decide_eq_false in E.
  rewrite lookup_insert_ne; [done|]. intros ->. apply E. by eexists.
Qed.

Lemma run_jobs_keeps J st q v :
  files st.1 !! q = Some v -> files (run_jobs J st).1 !! q = Some v.
Proof.
  unfold run_jobs. revert st. induction J as [|pc J IH]; intros st H; simpl; [done|].
  apply IH. by apply create_if_absent_keeps.
Qed.

Lemma create_if_absent_exists_mono st p c q :
  exists_ st.1 q = true -> exists_ (create_if_absent st p c).1 q = true.
Proof.
  destruct st as [fs cr]. unfold create_if_absent. simpl.
  destruct (exists_ fs p) eqn:E; [done|]. unfold exists_. simpl.
  intros Hq. apply orb_true_iff in Hq as [Hq|Hq]; apply orb_true_iff.
  - left. apply bool_decide_eq_true in Hq. apply bool_decide_eq_true.
    destruct (decide (p = q)) as [->|Hne]; [by rewrite lookup_insert_eq|].
    by rewrite lookup_insert_ne.
  - right. apply bool_decide_eq_true in Hq. apply bool_decide_eq_true. set_solver.
Qed.

Lemma run_jobs_exists_mono J st q :
  exists_ st.1 q = true -> exists_ (run_jobs J st).1 q = true.
Proof.
  unfold run_jobs. revert st. induction J as [|pc J IH]; intros st H; simpl; [done|].
  apply IH. by apply create_if_absent_exists_mono.
Qed.

Lemma create_if_absent_exists st p c : exists_ (create_if_absent st p c).1 p = true.
Proof.
  destruct st as [fs cr]. unfold create_if_absent. simpl.
  destruct (exists_ fs p) eqn:E; [done|]. unfold exists_. simpl.
  apply orb_true_iff. left. apply bool_decide_eq_true. rewrite lookup_insert_eq. by eexists.
Qed.

Lemma run_jobs_covers J st pc :
  In pc J -> exists_ (run_jobs J st).1 pc.1 = true.
Proof.
  unfold run_jobs. revert st. induction J as [|pc' J IH]; intros st H; simpl in *; [done|].
  destruct H as [<-|H].
  - apply (run_jobs_exists_mono J). apply create_if_absent_exists.
  - by apply IH.
Qed.

Lemma run_jobs_noop J st :
  (forall pc, In pc J -> exists_ st.1 pc.1 = true) -> run_jobs J st = st.
Proof.
  unfold run_jobs. revert st. induction J as [|pc J IH]; intros st H; simpl; [done|].
  destruct st as [fs cr].
  assert (E : exists_ fs pc.1 = true) by apply (H pc (or_introl eq_refl)).
  assert (Hc : create_if_absent (fs, cr) pc.1 pc.2 = (fs, cr))
    by (unfold create_if_absent; by rewrite E).
  rewrite Hc. apply IH. intros pc' Hin. apply H. by right.
Qed.

End JobFacts.

(** ** What the generate stages do to existing files *)
Module StageFacts.
Import Py Fs ManageImages Cli Jobs JobFacts.

Lemma fold_left_inv {A B} (f : A -> B -> A) (P : A -> Prop) (l : list B) (a : A) :
  (forall a b, P a -> P (f a b)) -> P a -> P (fold_left f l a).
Proof. revert a. induction l as [|b l IH]; intros a Hf Ha; simpl; auto. Qed.

Lemma run_jobs_app J1 J2 st : run_jobs (J1 ++ J2) st = run_jobs J2 (run_jobs J1 st).
Proof. unfold run_jobs. by rewrite fold_left_app. Qed.

Lemma generate_versions_keeps cat fs c fs' cr q v :
  files fs !! q = Some v -> generate_versions cat fs = Returned c fs' cr ->
  files fs' !! q = Some v.
Proof.
  intros Hq H. unfold generate_versions in H.
  destruct cat as [| |items]; [by injection H as <- <- <- | discriminate |].
  rewrite (items_jobs _ item_version_jobs) in H by apply versions_item_jobs.
  destruct (run_jobs _ _) as [fs1 cr1] eqn:E. injection H as <- <- <-.
  change fs1 with (fs1, cr1).1. rewrite <- E. by apply run_jobs_keeps.
Qed.

Lemma pass1_keeps l st q v :
  files st.1 !! q = Some v -> files (fold_left pin_from_version l st).1 !! q = Some v.
Proof.
  apply (fold_left_inv _ (fun st => files st.1 !! q = Some v)).
  intros st' p H. rewrite pin_from_version_job. by apply run_jobs_keeps.
Qed.

Lemma generate_pins_keeps cat l fs c fs' cr q v :
  files fs !! q = Some v -> generate_pins cat l fs = Returned c fs' cr ->
  files fs' !! q = Some v.
Proof.
  intros Hq H. unfold generate_pins in H.
  set (st1 := if exists_ fs versions_dir then fold_left pin_from_version l (fs, [])
              else (fs, [])) in H.
  assert (H1 : files st1.1 !! q = Some v).
  { subst st1. destruct (exists_ fs versions_dir); [by apply pass1_keeps | done]. }
  destruct cat as [| |items]; [by injection H as <- <- <- | discriminate |].
  injection H as <- <- <-.
  rewrite (items_jobs _ item_pin_jobs) by apply pins_item_jobs.
  by apply run_jobs_keeps.
Qed.

(** C4.  Neither generate-versions nor generate-pins ever changes a file
    that exists before it runs (in particular one in the expected set,
    whatever tag or digest it holds): every existing file has the same
    content afterwards. *)
Theorem existing_files_never_rewritten :
  (forall cat fs c fs' cr q v,
      files fs !! q = Some v -> generate_versions cat fs = Returned c fs' cr ->
      files fs' !! q = Some v) /\
  (forall cat versions fs c fs' cr q v,
      files fs !! q = Some v -> generate_pins cat versions fs = Returned c fs' cr ->
      files fs' !! q = Some v).
Proof.
  split.
  - intros. eapply generate_versions_keeps; eauto.
  - intros. eapply generate_pins_keeps; eauto.
Qed.

End StageFacts.

(** ** Orphans are left in place *)
Module OrphanFacts.
Import Py Fs ManageImages Cli Examples.

(** C2 (failing input).  With "old" removed from the catalog,
    generate-versions leaves the version Dockerfile of "old" in place. *)
Lemma generate_versions_leaves_orphan :
  match generate_versions (CatValid [busybox]) fs_orphans with
  | Returned c fs' _ =>
      c = 0%Z /\ files fs' !! v_old = Some (create_dockerfile_with_tag "old" "linux/amd64" "1")
  | Raised => False
  end.
Proof. vm_compute. split; reflexivity. Qed.

(** C3 (failing input).  With "old" removed from the catalog and no
    version file naming it, generate-pins leaves the pin of "old" in
    place. *)
Lemma generate_pins_leaves_orphan :
  match generate_pins (CatValid [busybox]) [v_busybox] fs_orphan_pin with
  | Returned c fs' _ =>
      c = 0%Z /\ files fs' !! p_old = Some (create_dockerfile_with_tag "old" "linux/amd64" "1")
  | Raised => False
  end.
Proof. vm_compute. split; reflexivity. Qed.

End OrphanFacts.

(** ** Re-running a stage *)
Module IdemFacts.
Import Py Fs ManageImages Cli Jobs JobFacts StageFacts.

Lemma generate_versions_idem cat fs c fs1 cr :
  generate_versions cat fs = Returned c fs1 cr -> generate_versions cat fs1 = Returned c fs1 [].
Proof.
  intros H. unfold generate_versions in *.
  destruct cat as [| |items]; [by injection H as <- <- <- | discriminate |].
  rewrite (items_jobs _ item_version_jobs) in * by apply versions_item_jobs.
  destruct (run_jobs _ (fs, [])) as [fs1' cr1'] eqn:E. injection H as <- <- <-.
  rewrite run_jobs_noop; [done|].
  intros pc Hin. simpl. change fs1' with (fs1', cr1').1. rewrite <- E.
  by apply run_jobs_covers.
Qed.

Lemma pins_dir_eq : pins_dir = ["nix"; "_dockerfiles"; "pins"].
Proof. reflexivity. Qed.

Lemma versions_dir_eq : versions_dir = ["nix"; "_dockerfiles"; "versions"].
Proof. reflexivity. Qed.

Lemma pin_path_under_pins a b c : under_pins (pin_path a b c) /\ 4 <= length (pin_path a b c).
Proof.
  unfold under_pins, pin_path, join. rewrite <- !app_assoc, pins_dir_eq.
  split; [reflexivity|]. change (Path "Dockerfile") with ["Dockerfile"].
  rewrite !length_app. simpl. lia.
Qed.

Lemma item_pin_jobs_under it pc :
  In pc (item_pin_jobs it) -> under_pins pc.1 /\ 4 <= length pc.1.
Proof.
  unfold item_pin_jobs. intros H. apply in_flat_map in H as (tg & _ & H).
  apply in_map_iff in H as (plat & <- & _). apply pin_path_under_pins.
Qed.

Lemma version_pin_job_under content pc :
  version_pin_job content = Some pc -> under_pins pc.1 /\ 4 <= length pc.1.
Proof.
  unfold version_pin_job. destruct (parse_dockerfile content); [|discriminate].
  case_bool_decide; [discriminate|]. intros [= <-]. apply pin_path_under_pins.
Qed.

Lemma firstn_removelast_3 (p : path) : 4 <= length p -> firstn 3 (removelast p) = firstn 3 p.
Proof.
  intros Hl. rewrite removelast_firstn_len, firstn_firstn. f_equal. lia.
Qed.

(** A creation under the pins root leaves every path of depth 3 or more
    outside it as it was. *)
Lemma create_pin_frame st p c q :
  under_pins p -> 4 <= length p -> 3 <= length q -> firstn 3 q <> pins_dir ->
  files (create_if_absent st p c).1 !! q = files st.1 !! q /\
  (q ∈ dirs (create_if_absent st p c).1 <-> q ∈ dirs st.1).
Proof.
  intros Hp Hlp Hlq Hq. destruct st as [fs cr]. unfold create_if_absent. simpl.
  destruct (exists_ fs p); [done|]. simpl. split.
  - rewrite lookup_insert_ne; [done|]. intros ->. by apply Hq.
  - rewrite elem_of_union, elem_of_list_to_set. split; [|by left].
    intros [H|H]; [done|]. exfalso.
    apply list_elem_of_In, in_map_iff in H as (n & Hn & Hin).
    apply in_seq in Hin.
    assert (Hlen : length q = Nat.min n (length (parent p))) by (rewrite <- Hn; apply length_firstn).
    unfold parent in Hlen. rewrite removelast_firstn_len, length_firstn in Hlen.
    apply Hq. rewrite <- Hn, firstn_firstn.
    replace (Nat.min 3 n) with 3 by lia.
    unfold parent. rewrite firstn_removelast_3 by done. exact Hp.
Qed.

Lemma run_pins_frame J st q :
  (forall pc, In pc J -> under_pins pc.1 /\ 4 <= length pc.1) ->
  3 <= length q -> firstn 3 q <> pins_dir ->
  files (run_jobs J st).1 !! q = files st.1 !! q /\
  (q ∈ dirs (run_jobs J st).1 <-> q ∈ dirs st.1).
Proof.
  unfold run_jobs. revert st. induction J as [|pc J IH]; intros st HJ Hl Hq; simpl; [done|].
  destruct (HJ pc (or_introl eq_refl)) as [Hu Hlp].
  destruct (create_pin_frame st pc.1 pc.2 q Hu Hlp Hl Hq) as [F D].
  destruct (IH (create_if_absent st pc.1 pc.2)) as [F' D']; auto.
  - intros pc' Hin. apply HJ. by right.
  - split; [congruence|]. by rewrite D', D.
Qed.

Lemma exists_same fs fs' q :
  files fs' !! q = files fs !! q -> (q ∈ dirs fs' <-> q ∈ dirs fs) -> exists_ fs' q = exists_ fs q.
Proof.
  intros F D. unfold exists_. rewrite F. f_equal. apply bool_decide_ext. done.
Qed.

Lemma flat_map_ext_in {A B} (f g : A -> list B) (l : list A) :
  (forall x, In x l -> f x = g x) -> flat_map f l = flat_map g l.
Proof.
  induction l as [|x l IH]; intros H; simpl; [done|].
  rewrite H by (left; done). f_equal. apply IH. intros y Hy. apply H. by right.
Qed.

Lemma pass1_jobs l st :
  (forall p, In p l -> is_Some (files st.1 !! p)) ->
  fold_left pin_from_version l st =
  run_jobs (flat_map (fun p => opt_list (version_pin_job (read st.1 p))) l) st.
Proof.
  revert st. induction l as [|p l IH]; intros st Hl; simpl; [done|].
  rewrite pin_from_version_job, run_jobs_app.
  set (st' := run_jobs (opt_list (version_pin_job (read st.1 p))) st).
  rewrite IH.
  - f_equal. apply flat_map_ext_in. intros q Hq.
    destruct (Hl q (or_intror Hq)) as [v Hv].
    unfold read. rewrite Hv. subst st'. by rewrite (run_jobs_keeps _ _ _ _ Hv).
  - intros q Hq. destruct (Hl q (or_intror Hq)) as [v Hv].
    exists v. by apply run_jobs_keeps.
Qed.

Lemma under_versions p :
  prefix_of versions_dir p = true -> 3 <= length p /\ firstn 3 p <> pins_dir.
Proof.
  unfold prefix_of. rewrite versions_dir_eq, andb_true_iff, bool_decide_eq_true, Nat.ltb_lt.
  simpl length. intros [H1 H2]. split; [lia|]. rewrite H1, pins_dir_eq. discriminate.
Qed.

Lemma opt_jobs_under (fs : FS) (l : list path) pc :
  In pc (flat_map (fun p => opt_list (version_pin_job (read fs p))) l) ->
  under_pins pc.1 /\ 4 <= length pc.1.
Proof.
  intros H. apply in_flat_map in H as (p & _ & H).
  destruct (version_pin_job (read fs p)) eqn:E; simpl in H; [|done].
  destruct H as [<-|[]]. by eapply version_pin_job_under.
Qed.

Lemma cat_jobs_under items pc :
  In pc (flat_map item_pin_jobs items) -> under_pins pc.1 /\ 4 <= length pc.1.
Proof. intros H. apply in_flat_map in H as (it & _ & H). by eapply item_pin_jobs_under. Qed.

Lemma generate_pins_idem cat l l2 fs c fs1 cr :
  rglob_spec fs versions_dir l -> generate_pins cat l fs = Returned c fs1 cr ->
  rglob_spec fs1 versions_dir l2 -> generate_pins cat l2 fs1 = Returned c fs1 [].
Proof.
  intros [_ Hl] H [_ Hl2]. unfold generate_pins in H.
  rewrite (pass1_jobs l (fs, [])) in H
    by (intros p Hp; apply Hl in Hp as (_ & _ & Hp); exact Hp).
  simpl in H.
  set (J1 := flat_map (fun p => opt_list (version_pin_job (read fs p))) l) in H.
  set (b := exists_ fs versions_dir) in H.
  set (st1 := if b then run_jobs J1 (fs, []) else (fs, [])) in H.
  (* everything the first run creates lies under the pins root *)
  assert (Fr1 : forall q : path, 3 <= length q -> firstn 3 q <> pins_dir ->
            files st1.1 !! q = files fs !! q /\ (q ∈ dirs st1.1 <-> q ∈ dirs fs)).
  { intros q Hq1 Hq2. subst st1. destruct b; [|done].
    apply run_pins_frame; [apply opt_jobs_under | done | done]. }
  assert (Cov1 : b = true -> forall pc, In pc J1 -> exists_ st1.1 pc.1 = true).
  { intros Hb pc Hin. subst st1. rewrite Hb. by apply run_jobs_covers. }
  assert (Fin : exists J2, (forall pc, In pc J2 -> under_pins pc.1 /\ 4 <= length pc.1) /\
                fs1 = (run_jobs J2 st1).1 /\ c = 0%Z /\
                generate_pins cat l2 fs1 =
                  (let st1' := if exists_ fs1 versions_dir
                               then fold_left pin_from_version l2 (fs1, []) else (fs1, []) in
                   Returned 0 (run_jobs J2 st1').1 (run_jobs J2 st1').2)).
  { destruct cat as [| |items]; [| discriminate |].
    - injection H as <- <- <-. exists []. split; [intros ? []|].
      split; [done|]. split; [done|].
      unfold generate_pins. destruct (exists_ st1.1 versions_dir); reflexivity.
    - injection H as <- <- <-. exists (flat_map item_pin_jobs items).
      split; [apply cat_jobs_under|].
      split; [by rewrite (items_jobs _ item_pin_jobs) by apply pins_item_jobs|].
      split; [done|].
      unfold generate_pins. rewrite (items_jobs _ item_pin_jobs) by apply pins_item_jobs.
      reflexivity. }
  destruct Fin as (J2 & HJ2 & Hfs1 & -> & ->).
  assert (Fr : forall q : path, 3 <= length q -> firstn 3 q <> pins_dir ->
            files fs1 !! q = files fs !! q /\ (q ∈ dirs fs1 <-> q ∈ dirs fs)).
  { intros q Hq1 Hq2. destruct (Fr1 q Hq1 Hq2) as [A B].
    destruct (run_pins_frame J2 st1 q HJ2 Hq1 Hq2) as [C D]. rewrite Hfs1.
    split; [etransitivity; [exact C | exact A]|]. by rewrite D, B. }
  assert (Cov : forall pc, In pc J2 -> exists_ fs1 pc.1 = true).
  { intros pc Hin. rewrite Hfs1. by apply run_jobs_covers. }
  assert (Hv : exists_ fs1 versions_dir = b).
  { assert (V1 : 3 <= length versions_dir) by (rewrite versions_dir_eq; simpl; lia).
    assert (V2 : firstn 3 versions_dir <> pins_dir)
      by (rewrite versions_dir_eq, pins_dir_eq; discriminate).
    destruct (Fr _ V1 V2). by apply exists_same. }
  cbv zeta. rewrite Hv.
  assert (P1 : (if b then fold_left pin_from_version l2 (fs1, []) else (fs1, [])) = (fs1, [])).
  { destruct b eqn:Eb; [|done].
    rewrite pass1_jobs by (intros p Hp; apply Hl2 in Hp as (_ & _ & Hp); exact Hp).
    apply run_jobs_noop. simpl. intros pc Hin.
    apply in_flat_map in Hin as (p & Hp & Hin).
    apply Hl2 in Hp as Hp'. destruct Hp' as (Hpre & Hlast & Hfile).
    destruct (under_versions p Hpre) as [Hp1 Hp2].
    destruct (Fr p Hp1 Hp2) as [Fp _].
    assert (HpJ : In pc J1).
    { apply in_flat_map. exists p. split.
      - apply Hl. destruct Hfile as [x Hx]. split; [done|]. split; [done|].
        exists x. rewrite <- Fp. exact Hx.
      - assert (Hr : read fs p = read fs1 p) by (unfold read; rewrite Fp; reflexivity).
        rewrite Hr. exact Hin. }
    rewrite Hfs1. apply run_jobs_exists_mono. by apply Cov1. }
  rewrite P1. rewrite run_jobs_noop by exact Cov. reflexivity.
Qed.

Lemma under_pins_len p : prefix_of pins_dir p = true -> 3 < length p.
Proof.
  unfold prefix_of. rewrite pins_dir_eq, andb_true_iff, Nat.ltb_lt. simpl length. by intros [_ ?].
Qed.

Lemma harvest_digests_idem l fs c fs1 cr :
  rglob_spec fs pins_dir l -> harvest_digests l fs = Returned c fs1 cr ->
  harvest_digests l fs1 = Returned c fs1 cr.
Proof.
  intros [_ Hl] H. unfold harvest_digests in *.
  destruct (exists_ fs pins_dir) eqn:Ep; simpl in H; [|by injection H as <- <- <-; rewrite Ep].
  injection H as <- <- <-.
  set (D := Json.dump (collect fs l).1).
  assert (Hne : forall q : path, 3 < length q -> q <> Path "digests.json").
  { intros q Hq ->. simpl in Hq. lia. }
  assert (Hp : exists_ (write_text fs (Path "digests.json") D) pins_dir = exists_ fs pins_dir).
  { apply exists_same; simpl; [|done].
    apply lookup_insert_ne. rewrite pins_dir_eq. intros E. vm_compute in E. discriminate E. }
  rewrite Hp, Ep. simpl.
  assert (Hc : collect (write_text fs (Path "digests.json") D) l = collect fs l).
  { unfold collect. apply fold_left_ext_in. intros acc p Hin. f_equal.
    apply Hl in Hin as (Hpre & _ & _). apply under_pins_len in Hpre.
    unfold read. simpl. rewrite lookup_insert_ne; [done|].
    intros E. symmetry in E. revert E. by apply Hne. }
  rewrite Hc. fold D. unfold write_text. simpl. by rewrite insert_insert_eq.
Qed.

(** C7.  Each stage run twice in succession, with nothing changed in
    between, changes nothing the second time: the second run creates
    no file and leaves the tree as the first run left it (none of the
    stages removes anything).  For generate-pins the second run sees
    any listing of the version files of the tree the first run left;
    for harvest-digests the pins tree is unchanged, so the second run
    walks it in the same order as the first. *)
Theorem stages_idempotent :
  (forall cat fs c fs1 cr,
      generate_versions cat fs = Returned c fs1 cr ->
      generate_versions cat fs1 = Returned c fs1 []) /\
  (forall cat l l2 fs c fs1 cr,
      rglob_spec fs versions_dir l -> generate_pins cat l fs = Returned c fs1 cr ->
      rglob_spec fs1 versions_dir l2 ->
      generate_pins cat l2 fs1 = Returned c fs1 []) /\
  (forall l fs c fs1 cr,
      rglob_spec fs pins_dir l -> harvest_digests l fs = Returned c fs1 cr ->
      harvest_digests l fs1 = Returned c fs1 cr).
Proof.
  split; [|split].
  - intros cat fs c fs1 cr H. exact (generate_versions_idem cat fs c fs1 cr H).
  - intros cat l l2 fs c fs1 cr H1 H2 H3. exact (generate_pins_idem cat l l2 fs c fs1 cr H1 H2 H3).
  - intros l fs c fs1 cr H1 H2. exact (harvest_digests_idem l fs c fs1 cr H1 H2).
Qed.

End IdemFacts.

(** ** Exit codes *)
Module ExitFacts.
Import Py Fs ManageImages Cli Examples.




End ExitFacts.

(** ** The digest index *)
Module DigestFacts.
Import Py Fs ManageImages Cli Props Examples.

Lemma lookup3_set3 d i' t' p' v i t p :
  lookup3 (set3 d i' t' p' v) i t p =
  if bool_decide (i' = i /\ t' = t /\ p' = p) then Some v else lookup3 d i t p.
Proof.
  unfold lookup3, set3. cbv zeta. case_bool_decide as Hk.
  - destruct Hk as (<- & <- & <-). rewrite (lookup_insert_eq (M := gmap string) d).
    simpl. rewrite lookup_insert_eq. simpl. by rewrite lookup_insert_eq.
  - destruct (decide (i' = i)) as [<-|Hi]; [|by rewrite (lookup_insert_ne (M := gmap string) d)].
    rewrite (lookup_insert_eq (M := gmap string) d). simpl.
    destruct (decide (t' = t)) as [<-|Ht].
    + rewrite lookup_insert_eq. simpl. rewrite lookup_insert_ne by naive_solver.
      destruct (d !! i') as [g|]; simpl; [|by rewrite lookup_empty].
      destruct (g !! t'); simpl; [done|by rewrite lookup_empty].
    + rewrite lookup_insert_ne by done.
      destruct (d !! i'); simpl; [done|by rewrite lookup_empty].
Qed.

Lemma collect_fold fs l acc i t p :
  lookup3 (fold_left (fun acc q => harvest_step acc (read fs q)) l acc).1 i t p =
    match last (refs_at fs l i t p) with Some v => Some v | None => lookup3 acc.1 i t p end /\
  (fold_left (fun acc q => harvest_step acc (read fs q)) l acc).2 = (acc.2 + awaiting fs l)%nat.
Proof.
  revert acc. induction l as [|q l IH]; intros acc; simpl; [split; [done|unfold awaiting; simpl; lia]|].
  destruct (IH (harvest_step acc (read fs q))) as [IH1 IH2]. rewrite IH1, IH2.
  unfold refs_at, awaiting. simpl. fold (refs_at fs l i t p).
  unfold harvest_step. split.
  - rewrite last_app. destruct (last (refs_at fs l i t p)); [done|].
    destruct (parse_dockerfile (read fs q)) as [r|]; simpl; [|done].
    destruct (digest r) as [d|]; simpl; [|done].
    rewrite lookup3_set3. unfold ref_string. by case_bool_decide.
  - destruct (parse_dockerfile (read fs q)) as [r|]; simpl; [|lia].
    destruct (digest r); simpl; lia.
Qed.

Lemma tree_files_In fl p x : files (tree fl) !! p = Some x -> In (p, x) fl.
Proof. intros H. by apply elem_of_list_to_map_2, list_elem_of_In in H. Qed.

Lemma fs_conflict_rglob l :
  l = [p_busybox; p_busybox_default] \/ l = [p_busybox_default; p_busybox] ->
  rglob_spec fs_conflict pins_dir l.
Proof.
  intros Hl. split.
  - destruct Hl as [->| ->]; apply (bool_decide_unpack _); vm_compute; reflexivity.
  - intros p. split.
    + intros Hp. assert (p = p_busybox \/ p = p_busybox_default) as [->| ->]
        by (destruct Hl as [->| ->]; simpl in Hp; intuition).
      * split; [vm_compute; reflexivity|]. split; [reflexivity|].
        exists pinned_text. vm_compute. reflexivity.
      * split; [vm_compute; reflexivity|]. split; [reflexivity|].
        exists ("FROM busybox:1@sha256:" +:+ d64' +:+ ManageImages.newline). vm_compute. reflexivity.
    + intros (_ & _ & [x Hx]). apply tree_files_In in Hx. simpl in Hx.
      destruct Hx as [Hx|[Hx|[]]]; injection Hx as <- _;
        destruct Hl as [->| ->]; simpl; auto.
Qed.

(** C6 (counterexample).  Both pin files below carry a digest and parse
    to the key (busybox, 1, linux/amd64); walked in this order, the
    index holds the second file's reference at that key, not the
    first's. *)
Lemma conflicting_pin_dropped :
  rglob_spec fs_conflict pins_dir [p_busybox; p_busybox_default] /\
  match parse_dockerfile (read fs_conflict p_busybox) with
  | Some r => image r = "busybox" /\ tag r = "1" /\ platform r = "linux/amd64" /\
              digest r = Some d64
  | None => False
  end /\
  lookup3 (collect fs_conflict [p_busybox; p_busybox_default]).1 "busybox" "1" "linux/amd64"
    = Some ("busybox:1@sha256:" +:+ d64').
Proof.
  split; [apply fs_conflict_rglob; by left|].
  vm_compute. repeat split; reflexivity.
Qed.

(** C6 (amended).  For every listing of the pin files, the index that
    harvest-digests serialises holds at [image][tag][platform] the
    reference "image:tag@sha256:digest" of the LAST listed pin file
    that parses to that key with a digest, and nothing at a key no
    such file has; the skipped count is the number of pin files that
    parse without a digest. *)
Theorem harvest_index_last_wins fs l i t p :
  lookup3 (collect fs l).1 i t p = last (refs_at fs l i t p) /\
  (collect fs l).2 = awaiting fs l.
Proof.
  unfold collect. destruct (collect_fold fs l (∅, 0%nat) i t p) as [H1 H2].
  rewrite H1, H2. split; [|done].
  destruct (last (refs_at fs l i t p)); [done|]. unfold lookup3. simpl.
  reflexivity.
Qed.

Lemma set3_comm d i1 t1 p1 v1 i2 t2 p2 v2 :
  (i1 <> i2 \/ t1 <> t2 \/ p1 <> p2 \/ v1 = v2) ->
  set3 (set3 d i1 t1 p1 v1) i2 t2 p2 v2 = set3 (set3 d i2 t2 p2 v2) i1 t1 p1 v1.
Proof.
  intros Hk. unfold set3. cbv zeta.
  destruct (decide (i1 = i2)) as [<-|Hi].
  - rewrite !(lookup_insert_eq (M := gmap string) d). simpl.
    rewrite !(insert_insert_eq (M := gmap string) d). f_equal.
    destruct (decide (t1 = t2)) as [<-|Ht].
    + rewrite !lookup_insert_eq. simpl. rewrite !insert_insert_eq. f_equal.
      destruct (decide (p1 = p2)) as [<-|Hp].
      * destruct Hk as [?|[?|[?| <-]]]; [congruence..|done].
      * apply insert_insert_ne. congruence.
    + rewrite !lookup_insert_ne by congruence. apply insert_insert_ne. congruence.
  - rewrite !(lookup_insert_ne (M := gmap string) d) by congruence.
    apply (insert_insert_ne (M := gmap string)). congruence.
Qed.

Lemma harvest_step_comm acc c1 c2 :
  (forall r1 r2 d1 d2,
      parse_dockerfile c1 = Some r1 -> digest r1 = Some d1 ->
      parse_dockerfile c2 = Some r2 -> digest r2 = Some d2 ->
      image r1 = image r2 -> tag r1 = tag r2 -> platform r1 = platform r2 -> d1 = d2) ->
  harvest_step (harvest_step acc c1) c2 = harvest_step (harvest_step acc c2) c1.
Proof.
  intros H. unfold harvest_step.
  destruct (parse_dockerfile c1) as [r1|] eqn:E1, (parse_dockerfile c2) as [r2|] eqn:E2;
    simpl; try reflexivity.
  destruct (digest r1) as [d1|] eqn:D1, (digest r2) as [d2|] eqn:D2; simpl; try reflexivity.
  f_equal. apply set3_comm.
  destruct (decide (image r1 = image r2)) as [Ei|]; [|by left].
  destruct (decide (tag r1 = tag r2)) as [Et|]; [|by right; left].
  destruct (decide (platform r1 = platform r2)) as [Ep|]; [|by right; right; left].
  right; right; right. rewrite Ei, Et, (H r1 r2 d1 d2); done.
Qed.

Lemma fold_left_perm {A B} (f : A -> B -> A) (l1 l2 : list B) :
  Permutation l1 l2 ->
  (forall x y a, In x l1 -> In y l1 -> f (f a x) y = f (f a y) x) ->
  forall a, fold_left f l1 a = fold_left f l2 a.
Proof.
  induction 1 as [|x l l' P IH|y x l|l l' l'' P1 IH1 P2 IH2]; intros Hc a; simpl.
  - done.
  - apply IH. intros x' y' a' Hx Hy. apply Hc; by right.
  - rewrite (Hc x y a) by (simpl; auto). done.
  - rewrite IH1 by done. apply IH2. intros x y a' Hx Hy.
    apply Hc; by apply (Permutation_in _ (Permutation_sym P1)).
Qed.

Lemma rglob_perm fs base l1 l2 :
  rglob_spec fs base l1 -> rglob_spec fs base l2 -> Permutation l1 l2.
Proof.
  intros [N1 H1] [N2 H2]. apply NoDup_Permutation; [done|done|].
  intros p. by rewrite !list_elem_of_In, H1, H2.
Qed.

Lemma collect_perm fs l1 l2 :
  Permutation l1 l2 -> consistent fs l1 -> collect fs l1 = collect fs l2.
Proof.
  intros P C. unfold collect. apply fold_left_perm; [done|].
  intros q1 q2 a Hq1 Hq2. apply harvest_step_comm.
  intros r1 r2 d1 d2 ? ? ? ? ? ? ?. by apply (C q1 q2 r1 r2 d1 d2).
Qed.

Lemma collect_ignores_digests fs l old :
  (forall q, In q l -> 3 < length q) ->
  collect (write_text fs (Path "digests.json") old) l = collect fs l.
Proof.
  intros Hl. unfold collect. apply JobFacts.fold_left_ext_in. intros acc q Hin. f_equal.
  unfold read. simpl. rewrite lookup_insert_ne; [done|].
  intros E. specialize (Hl q Hin). rewrite <- E in Hl. simpl in Hl. lia.
Qed.

(** C9 (counterexample).  Both listings below are traversal orders of
    the same pins tree, yet harvest-digests writes different
    digests.json contents for them: the two pin files disagree on the
    digest of (busybox, 1, linux/amd64). *)
Lemma traversal_order_changes_output :
  rglob_spec fs_conflict pins_dir [p_busybox; p_busybox_default] /\
  rglob_spec fs_conflict pins_dir [p_busybox_default; p_busybox] /\
  digest_at (harvest_digests [p_busybox; p_busybox_default] fs_conflict) <>
  digest_at (harvest_digests [p_busybox_default; p_busybox] fs_conflict).
Proof.
  split; [apply fs_conflict_rglob; by left|].
  split; [apply fs_conflict_rglob; by right|].
  vm_compute. intros H. discriminate H.
Qed.

(** C9 (amended).  When no two pin files give different digests for
    one (image, tag, platform), harvest-digests leaves the same tree
    (so the same digests.json bytes) whatever order the pins tree is
    walked in; and a digests.json already present has no influence on
    what is written. *)
Theorem harvest_output_deterministic :
  (forall fs l1 l2,
      rglob_spec fs pins_dir l1 -> rglob_spec fs pins_dir l2 -> consistent fs l1 ->
      harvest_digests l1 fs = harvest_digests l2 fs) /\
  (forall fs l old,
      rglob_spec fs pins_dir l -> exists_ fs pins_dir = true ->
      harvest_digests l (write_text fs (Path "digests.json") old) = harvest_digests l fs).
Proof.
  split.
  - intros fs l1 l2 R1 R2 C. unfold harvest_digests.
    by rewrite (collect_perm fs l1 l2 (rglob_perm _ _ _ _ R1 R2) C).
  - intros fs l old [_ Hl] Ep. unfold harvest_digests.
    assert (Hp : exists_ (write_text fs (Path "digests.json") old) pins_dir = exists_ fs pins_dir).
    { apply IdemFacts.exists_same; simpl; [|done].
      apply lookup_insert_ne. rewrite IdemFacts.pins_dir_eq. intros E. vm_compute in E. discriminate E. }
    rewrite Hp, Ep. simpl.
    rewrite collect_ignores_digests.
    + unfold write_text. simpl. by rewrite insert_insert_eq.
    + intros q Hq. apply Hl in Hq as (Hpre & _ & _). by apply IdemFacts.under_pins_len.
Qed.

End DigestFacts.

(** ** The matcher on the lines the program writes and reads *)
Module RegexFacts.
Import Py Regex ManageImages.

Lemma strip_ci_self l s : strip_ci l (l ++ s) = Some s.
Proof.
  induction l as [|a l IH]; simpl; [done|].
  unfold ascii_eqb. by rewrite Ascii.eqb_refl.
Qed.

Lemma run_all p l s :
  Forall (fun x => p x = true) l -> (match s with [] => True | x :: _ => p x = false end) ->
  run p (l ++ s) = length l.
Proof.
  intros Hl Hs. induction Hl as [|x l Hx Hl IH]; simpl.
  - destruct s as [|x s]; simpl; [done|]. by rewrite Hs.
  - by rewrite Hx, IH.
Qed.

Lemma run_full p l : Forall (fun x => p x = true) l -> run p l = length l.
Proof. intros H. rewrite <- (app_nil_r l) at 1. by apply run_all. Qed.

Lemma run_one p x s :
  p x = true -> (match s with [] => True | y :: _ => p y = false end) -> run p (x :: s) = 1.
Proof. intros Hx Hs. simpl. rewrite Hx. destruct s as [|y s]; simpl; [done|]. by rewrite Hs. Qed.

Lemma run_nospace s : Forall (fun x => is_space x = false) s -> run is_space s = 0.
Proof. intros H. destruct H as [|x s Hx _]; simpl; [done|]. by rewrite Hx. Qed.

Lemma candidates_greedy lo n : lo <= n -> n <> 0 ->
  candidates lo None true n = n :: rev (seq lo (n - lo)).
Proof.
  intros H1 H2. unfold candidates.
  destruct (n <? lo) eqn:E; [apply Nat.ltb_lt in E; lia|].
  replace (S (n - lo)) with ((n - lo) + 1) by lia.
  rewrite seq_app, rev_app_distr. simpl. f_equal. lia.
Qed.

Lemma candidates_lazy lo n : lo <= n -> candidates lo None false n = seq lo (S (n - lo)).
Proof.
  intros H1. unfold candidates.
  destruct (n <? lo) eqn:E; [apply Nat.ltb_lt in E; lia|]. done.
Qed.

Lemma candidates_none lo n : n < lo -> forall g, candidates lo None g n = [].
Proof.
  intros H g. unfold candidates. destruct (n <? lo) eqn:E; [done|]. apply Nat.ltb_ge in E. lia.
Qed.

Lemma first_some_seq {A} (f : nat -> option A) a n k x :
  (forall i, a <= i < a + k -> f i = None) -> k < n -> f (a + k) = Some x ->
  first_some f (seq a n) = Some x.
Proof.
  revert a k. induction n as [|n IH]; intros a k Hf Hk Hx; [lia|].
  simpl. destruct k as [|k].
  - rewrite Nat.add_0_r in Hx. by rewrite Hx.
  - rewrite Hf by lia. apply (IH (S a) k); [|lia|by rewrite <- Hx; f_equal; lia].
    intros i Hi. apply Hf. lia.
Qed.

Lemma first_some_hd {A} (f : nat -> option A) j l x : f j = Some x -> first_some f (j :: l) = Some x.
Proof. simpl. by intros ->. Qed.

(** [re.IGNORECASE] leaves a pattern character that is not a letter
    matching only itself. *)
Lemma lower_nonletter c x :
  (nat_of_ascii x < 65 \/ 90 < nat_of_ascii x < 97 \/ 122 < nat_of_ascii x) ->
  ascii_eqb (lower x) (lower c) = ascii_eqb x c.
Proof.
  intros Hx. unfold ascii_eqb, lower. cbv zeta.
  destruct ((65 <=? nat_of_ascii x) && (nat_of_ascii x <=? 90)) eqn:Ex.
  { apply andb_true_iff in Ex as [E1 E2]. apply Nat.leb_le in E1, E2. lia. }
  destruct ((65 <=? nat_of_ascii c) && (nat_of_ascii c <=? 90)) eqn:Ec.
  - apply andb_true_iff in Ec as [E1 E2]. apply Nat.leb_le in E1, E2.
    destruct (Ascii.eqb x (ascii_of_nat (nat_of_ascii c + 32))) eqn:E1'.
    + apply Ascii.eqb_eq in E1'. subst x. rewrite nat_ascii_embedding in Hx by lia. lia.
    + symmetry. apply Ascii.eqb_neq. intros ->. lia.
  - done.
Qed.

Lemma strip_ci_mismatch a l x s :
  (nat_of_ascii a < 65 \/ 90 < nat_of_ascii a < 97 \/ 122 < nat_of_ascii a) -> x <> a ->
  strip_ci (a :: l) (x :: s) = None.
Proof.
  intros Ha Hx. simpl. rewrite lower_nonletter by done.
  unfold ascii_eqb. destruct (Ascii.eqb a x) eqn:E; [|done].
  apply Ascii.eqb_eq in E. congruence.
Qed.

Lemma strip_ci_suffix l s s' : strip_ci l s = Some s' -> exists pre, s = pre ++ s'.
Proof.
  revert s. induction l as [|a l IH]; intros s H; simpl in H.
  - injection H as <-. by exists [].
  - destruct s as [|b s]; [done|]. destruct (ascii_eqb _ _); [|done].
    destruct (IH s H) as [pre ->]. by exists (b :: pre).
Qed.

Lemma m_cat r1 r2 s c k : m (RCat r1 r2) s c k = m r1 s c (fun s' c' => m r2 s' c' k).
Proof. reflexivity. Qed.
Lemma m_eps s c k : m REps s c k = k s c.
Proof. reflexivity. Qed.
Lemma m_opt_some r s c k x : m r s c k = Some x -> m (ROpt r) s c k = Some x.
Proof. simpl. by intros ->. Qed.
Lemma m_lit l s s' c k : strip_ci l s = Some s' -> m (RLit l) s c k = k s' c.
Proof. simpl. by intros ->. Qed.
Lemma m_lit_app l s c k : m (RLit l) (l ++ s) c k = k s c.
Proof. apply m_lit, strip_ci_self. Qed.
Lemma m_grp i r s c k :
  m (RGrp i r) s c k = m r s c (fun s' c' => k s' ((i, firstn (length s - length s') s) :: c')).
Proof. reflexivity. Qed.
Lemma m_rep p lo hi g s c k :
  m (RRep p lo hi g) s c k = first_some (fun j => k (skipn j s) c) (candidates lo hi g (run p s)).
Proof. reflexivity. Qed.

Lemma Forall_skipn' {A} (P : A -> Prop) n l : Forall P l -> Forall P (skipn n l).
Proof. intros H. rewrite <- (firstn_skipn n l) in H. by apply Forall_app in H as [_ ?]. Qed.

Lemma firstn_diff {A} (l1 l2 : list A) : firstn (length (l1 ++ l2) - length l2) (l1 ++ l2) = l1.
Proof.
  rewrite length_app. replace (length l1 + length l2 - length l2) with (length l1) by lia.
  by rewrite firstn_app, Nat.sub_diag, firstn_all, firstn_O, app_nil_r.
Qed.

(** What follows the image group in [from_pattern]. *)
Local Abbreviation after_image :=
  (cat [ROpt (cat [lit ":"; RGrp 3 (RRep not_space_at 1 None true)]);
        ROpt (cat [lit "@sha256:"; RGrp 4 (RRep hex_ci 64 (Some 64) true)]);
        RRep is_space 0 None true;
        ROpt (cat [lit "AS"; RRep is_space 1 None true; RRep not_newline 0 None true]);
        REnd]).

(** With at least two characters left, none a space, and the next one
    neither [:] nor [@], the rest of the pattern cannot match. *)
Lemma after_image_fails x s c k :
  Forall (fun y => is_space y = false) (x :: s) -> s <> [] -> x <> ":"%char -> x <> "@"%char ->
  m after_image (x :: s) c k = None.
Proof.
  intros Hs Hne Hc Ha. cbn [cat m lit list_ascii_of_string].
  rewrite strip_ci_mismatch by (try done; vm_compute; lia).
  rewrite strip_ci_mismatch by (try done; vm_compute; lia).
  rewrite run_nospace by done.
  replace (candidates 0 None true 0) with [0] by reflexivity. cbn [first_some].
  rewrite skipn_O.
  destruct (strip_ci ["A"%char; "S"%char] (x :: s)) as [s'|] eqn:E.
  - apply strip_ci_suffix in E as [pre E]. rewrite E in Hs. apply Forall_app in Hs as [_ Hs'].
    rewrite run_nospace by done. rewrite candidates_none by lia. cbn [first_some].
    destruct s as [|y s]; done.
  - destruct s as [|y s]; done.
Qed.

(** [:tag] at the end of the line is taken whole as group 3. *)
Lemma after_image_tag lt c :
  lt <> [] -> Forall (fun y => not_space_at y = true) lt ->
  m after_image (":"%char :: lt) c accept = Some ((3, lt) :: c).
Proof.
  intros Hne Hlt. cbn [cat]. rewrite m_cat. apply m_opt_some.
  rewrite m_cat. unfold lit at 1. rewrite (m_lit _ _ lt) by apply (strip_ci_self [":"%char]).
  rewrite m_grp, m_rep, run_full by done.
  rewrite candidates_greedy by (destruct lt; simpl; [done|lia]).
  apply first_some_hd. rewrite skipn_all. cbn beta.
  rewrite Nat.sub_0_r, firstn_all. reflexivity.
Qed.

(** The lazy image group stops at the first [:]. *)
Lemma image_group li lt c :
  li <> [] -> lt <> [] ->
  Forall (fun y => is_space y = false /\ y <> ":"%char /\ y <> "@"%char) li ->
  Forall (fun y => not_space_at y = true) lt ->
  m (RGrp 2 (RRep not_space 1 None false)) (li ++ ":"%char :: lt) c
    (fun s' c' => m after_image s' c' accept)
  = Some ((3, lt) :: (2, li) :: c).
Proof.
  intros Hli Hlt Fi Ft.
  assert (Fs : Forall (fun y => is_space y = false) (li ++ ":"%char :: lt)).
  { apply Forall_app. split.
    - eapply Forall_impl; [exact Fi|]. simpl. tauto.
    - constructor; [reflexivity|]. eapply Forall_impl; [exact Ft|].
      intros y Hy. unfold not_space_at in Hy. apply andb_true_iff in Hy as [Hy _].
      by apply negb_true_iff in Hy. }
  rewrite m_grp, m_rep, run_full.
  2:{ eapply Forall_impl; [exact Fs|]. intros y Hy. unfold not_space. by rewrite Hy. }
  rewrite candidates_lazy by (rewrite length_app; simpl; lia).
  apply (first_some_seq _ 1 _ (length li - 1)).
  - intros i Hi. cbn beta.
    rewrite skipn_app. replace (i - length li) with 0 by lia. rewrite skipn_O.
    destruct (skipn i li) as [|x rest] eqn:E.
    { apply (f_equal length) in E. rewrite length_skipn in E. simpl in E. lia. }
    assert (Fx : Forall (fun y => is_space y = false /\ y <> ":"%char /\ y <> "@"%char) (x :: rest))
      by (rewrite <- E; by apply Forall_skipn').
    apply Forall_cons in Fx as [(Hx1 & Hx2 & Hx3) Fr].
    apply after_image_fails; [|destruct rest; discriminate|done|done].
    constructor; [done|]. apply Forall_app. split.
    + eapply Forall_impl; [exact Fr|]. simpl. tauto.
    + by apply Forall_app in Fs as [_ ?].
  - rewrite length_app. simpl. destruct li; [done|simpl; lia].
  - cbn beta. replace (1 + (length li - 1)) with (length li) by (destruct li; [done|simpl; lia]).
    rewrite skipn_app, skipn_all, Nat.sub_diag, skipn_O. simpl app.
    rewrite after_image_tag by done. by rewrite firstn_diff.
Qed.

(** The line [create_dockerfile_with_tag] writes, without its newline. *)
Lemma from_line_match lp li lt :
  lp <> [] -> li <> [] -> lt <> [] ->
  Forall (fun y => is_space y = false) lp ->
  Forall (fun y => is_space y = false /\ y <> ":"%char /\ y <> "@"%char) li ->
  Forall (fun y => not_space_at y = true) lt ->
  re_match from_pattern
    (list_ascii_of_string "FROM" ++ " "%char :: list_ascii_of_string "--platform=" ++
     lp ++ " "%char :: li ++ ":"%char :: lt)
  = Some [(3, lt); (2, li); (1, lp)].
Proof.
  intros Hp Hi Ht Fp Fi Ft. unfold re_match, from_pattern. cbn [cat].
  rewrite m_cat, m_eps, m_cat. unfold lit at 1. rewrite m_lit_app.
  rewrite m_cat, m_rep.
  rewrite run_one by reflexivity.
  replace (candidates 1 None true 1) with [1] by reflexivity.
  apply first_some_hd. cbn beta. rewrite skipn_cons, skipn_O.
  rewrite m_cat. apply m_opt_some. cbn [cat].
  rewrite m_cat. unfold lit at 1. rewrite m_lit_app.
  rewrite m_cat, m_grp, m_rep.
  rewrite run_all; [| eapply Forall_impl; [exact Fp|]; intros y Hy; unfold not_space; by rewrite Hy
                    | reflexivity].
  rewrite candidates_greedy by (destruct lp; simpl; [done|lia]).
  apply first_some_hd. cbn beta.
  rewrite skipn_app, skipn_all, Nat.sub_diag, skipn_O. simpl app.
  rewrite m_rep. rewrite run_one; [|reflexivity|].
  2:{ destruct li as [|x li]; [done|]. apply Forall_cons in Fi as [(Hx & _) _]. exact Hx. }
  replace (candidates 1 None true 1) with [1] by reflexivity.
  apply first_some_hd. cbn beta. rewrite skipn_cons, skipn_O.
  rewrite m_cat, image_group by done.
  rewrite (firstn_diff lp). reflexivity.
Qed.

Lemma list_ascii_app a b :
  list_ascii_of_string (a +:+ b) = list_ascii_of_string a ++ list_ascii_of_string b.
Proof. induction a as [|x a IH]; simpl; [done|]. by rewrite IH. Qed.

Lemma linebreak_space c : is_space c = false -> is_linebreak c = false.
Proof.
  unfold is_space, is_linebreak. cbv zeta. intros H.
  apply orb_false_iff in H as [H1 H2]. apply orb_false_iff. split.
  - apply andb_false_iff in H1 as [H1|H1]; apply andb_false_iff;
      [apply Nat.leb_gt in H1|apply Nat.leb_gt in H1]; [left|right]; apply Nat.leb_gt; lia.
  - apply andb_false_iff in H2 as [H2|H2]; apply andb_false_iff;
      [apply Nat.leb_gt in H2|apply Nat.leb_gt in H2]; [left|right]; apply Nat.leb_gt; lia.
Qed.

Lemma splitlines_go_line l cur :
  Forall (fun c => is_linebreak c = false) l -> splitlines_go (l ++ [LF]) cur = [rev cur ++ l].
Proof.
  revert cur. induction l as [|x l IH]; intros cur H.
  - simpl. by rewrite app_nil_r.
  - apply Forall_cons in H as [Hx H]. simpl.
    assert (HCR : ascii_eqb x CR = false).
    { unfold ascii_eqb. apply Ascii.eqb_neq. intros ->. discriminate Hx. }
    rewrite HCR, Hx, IH by done. simpl. by rewrite <- app_assoc.
Qed.

Lemma nonempty_list s : s <> "" -> list_ascii_of_string s <> [].
Proof. destruct s; simpl; congruence. Qed.

Lemma or_default_some (l : list ascii) d : l <> [] -> or_default (Some l) d = string_of_list_ascii l.
Proof. destruct l; [done|reflexivity]. Qed.

Lemma or_default_str s d : s <> "" -> or_default (Some (list_ascii_of_string s)) d = s.
Proof.
  intros H. rewrite or_default_some by (by apply nonempty_list).
  apply string_of_list_ascii_of_string.
Qed.

Lemma or_default_nonempty g d : d <> "" -> or_default g d <> "".
Proof. destruct g as [[|x l]|]; simpl; congruence. Qed.

End RegexFacts.

Module ParseFacts.
Import Py Regex ManageImages Fs Cli Props Examples RegexFacts.

(** C5 (failing input).  The parser of manage-images.py fills in an absent
    tag and platform.  A pin with a digest but no tag and no platform is
    indexed by harvest-digests under tag latest and platform linux/amd64,
    and a version file without tag or platform makes generate-pins create
    the pin of tag latest on linux_amd64: its skip of untagged version
    files never fires.  On the same version file the parser of
    harvest-tags.py reports no tag and no platform, and its creation loop
    skips the file. *)
Lemma untagged_pin_defaults :
  match parse_dockerfile untagged_pin with
  | Some r => image r = "busybox" /\ tag r = "latest" /\ platform r = "linux/amd64" /\
              digest r = Some d64
  | None => False
  end /\
  lookup3 (collect (tree [(p_busybox, untagged_pin)]) [p_busybox]).1
    "busybox" "latest" "linux/amd64" = Some ("busybox:latest@sha256:" +:+ d64) /\
  match generate_pins CatMissing [v_busybox] (tree [(v_busybox, untagged_version)]) with
  | Returned _ fs created =>
      created = [pin_path "busybox" "linux_amd64" "latest"] /\
      files fs !! pin_path "busybox" "linux_amd64" "latest"
        = Some (create_dockerfile_with_tag "busybox" "linux/amd64" "latest")
  | Raised => False
  end /\
  match HarvestTags.parse_dockerfile_tags untagged_version with
  | Some t => HarvestTags.t_tag t = None /\ HarvestTags.t_platform t = None
  | None => False
  end /\
  match HarvestTags.create_pins [v_busybox] (tree [(v_busybox, untagged_version)], []) with
  | Some (_, created) => created = []
  | None => False
  end.
Proof. vm_compute. repeat split. Qed.

(** An empty tag does not round-trip (the image absorbs the colon and the
    tag becomes latest), and an empty platform makes the line unparsable. *)
Lemma empty_field_not_roundtrip :
  match parse_dockerfile (create_dockerfile_with_tag "busybox" "linux/amd64" "") with
  | Some r => image r = "busybox:" /\ tag r = "latest"
  | None => False
  end /\
  parse_dockerfile (create_dockerfile_with_tag "busybox" "" "1") = None.
Proof. vm_compute. repeat split. Qed.

(** C10. For a non-empty image with no whitespace, ':' or '@', a
    non-empty platform with no whitespace, and a non-empty tag with no
    whitespace or '@', parsing the text create_dockerfile_with_tag writes
    gives back that platform, image and tag, and no digest. *)
Theorem create_then_parse i p t :
  i <> "" -> p <> "" -> t <> "" ->
  no_space i -> no_char ":" i -> no_char "@" i -> no_space p -> no_space t -> no_char "@" t ->
  exists r, parse_dockerfile (create_dockerfile_with_tag i p t) = Some r /\
    platform r = p /\ image r = i /\ tag r = t /\ digest r = None.
Proof.
  intros Hi Hp Ht Si Ci Ai Sp St At.
  set (li := list_ascii_of_string i). set (lp := list_ascii_of_string p).
  set (lt := list_ascii_of_string t).
  set (line := list_ascii_of_string "FROM" ++ " "%char :: list_ascii_of_string "--platform=" ++
               lp ++ " "%char :: li ++ ":"%char :: lt).
  assert (Hl : list_ascii_of_string (create_dockerfile_with_tag i p t) = line ++ [LF]).
  { unfold create_dockerfile_with_tag, line. rewrite !list_ascii_app. simpl.
    rewrite <- !app_assoc. simpl. by rewrite <- !app_assoc. }
  assert (Fi : Forall (fun y => is_space y = false /\ y <> ":"%char /\ y <> "@"%char) li)
    by (apply Forall_and; split; [exact Si|apply Forall_and; split; [exact Ci|exact Ai]]).
  assert (Ft : Forall (fun y => not_space_at y = true) lt).
  { apply (Forall_impl (fun y => is_space y = false /\ y <> "@"%char)); [by apply Forall_and; split|].
    intros y [Y1 Y2]. unfold not_space_at. rewrite Y1. simpl.
    unfold ascii_eqb. destruct (Ascii.eqb y "@") eqn:E; [|done]. by apply Ascii.eqb_eq in E. }
  assert (Hs : splitlines (create_dockerfile_with_tag i p t) = [line]).
  { unfold splitlines. rewrite Hl, splitlines_go_line; [reflexivity|].
    assert (NL : forall l, Forall (fun c => is_space c = false) l ->
                           Forall (fun c => is_linebreak c = false) l)
      by (intros l Hl'; eapply Forall_impl; [exact Hl'|apply linebreak_space]).
    unfold line. apply Forall_app. split; [repeat constructor|].
    constructor; [reflexivity|]. apply Forall_app. split; [repeat constructor|].
    apply Forall_app. split; [by apply NL|]. constructor; [reflexivity|].
    apply Forall_app. split; [by apply NL|]. constructor; [reflexivity|]. by apply NL. }
  unfold parse_dockerfile. rewrite Hs. simpl. unfold line.
  rewrite from_line_match; [|by apply nonempty_list..|exact Sp|exact Fi|exact Ft].
  eexists. split; [reflexivity|]. unfold reference_of. subst li lp lt.
  cbn [platform image tag digest group find fst Nat.eqb option_map].
  rewrite !or_default_str by done. by rewrite string_of_list_ascii_of_string.
Qed.

Lemma create_then_parse_witness :
  exists r, parse_dockerfile (create_dockerfile_with_tag "busybox" "linux/amd64" "1") = Some r /\
    platform r = "linux/amd64" /\ image r = "busybox" /\ tag r = "1" /\ digest r = None.
Proof.
  apply create_then_parse; try discriminate;
    unfold no_space, no_char; simpl; repeat constructor; try discriminate.
Defined.

End ParseFacts.

Module MatchFacts.
Import Py Regex ManageImages Props MatchDefs RegexFacts.

Lemma first_some_In {A} (f : nat -> option A) l x :
  first_some f l = Some x -> exists j, In j l /\ f j = Some x.
Proof.
  induction l as [|j l IH]; simpl; [done|].
  destruct (f j) eqn:E.
  - intros [= <-]. exists j. auto.
  - intros H. destruct (IH H) as (j' & ? & ?). exists j'. auto.
Qed.

Lemma m_sound r s c k res :
  m r s c k = Some res -> exists s' c', mt r s c s' c' /\ k s' c' = Some res.
Proof.
  revert s c k. induction r as [| l | p lo hi g | r1 IH1 r2 IH2 | r1 IH | i r1 IH |];
    intros s c k H; simpl in H.
  - exists s, c. split; [constructor|done].
  - destruct (strip_ci l s) as [s'|] eqn:E; [|done].
    exists s', c. split; [by constructor|done].
  - apply first_some_In in H as (j & Hj & Hk).
    exists (skipn j s), c. split; [by constructor|done].
  - apply IH1 in H as (s1 & c1 & M1 & H1). apply IH2 in H1 as (s2 & c2 & M2 & H2).
    exists s2, c2. split; [by econstructor|done].
  - destruct (m r1 s c k) eqn:E.
    + injection H as <-. apply IH in E as (s' & c' & M & Hk).
      exists s', c'. split; [by apply mt_opt_some|done].
    + exists s, c. split; [apply mt_opt_none|done].
  - apply IH in H as (s' & c' & M & Hk). eexists _, _. split; [by constructor|exact Hk].
  - destruct s as [|x [|y s]]; [| |done].
    + exists [], c. split; [constructor; by left|done].
    + destruct (ascii_eqb x LF) eqn:E; [|done]. apply Ascii.eqb_eq in E. subst x.
      exists [LF], c. split; [constructor; by right|done].
Qed.

Lemma candidates_bounds lo hi g n j :
  In j (candidates lo hi g n) ->
  lo <= j /\ j <= n /\ (match hi with Some h => j <= h | None => True end).
Proof.
  unfold candidates. destruct (_ <? lo) eqn:E; [done|]. apply Nat.ltb_ge in E.
  intros Hj. assert (Hs : In j (seq lo (S ((match hi with Some h => Nat.min h n | None => n end) - lo)))).
  { destruct g; [by apply in_rev|done]. }
  apply in_seq in Hs. destruct hi; lia.
Qed.

Lemma run_le p s : run p s <= length s.
Proof. induction s as [|x s IH]; simpl; [done|]. destruct (p x); simpl; lia. Qed.

Lemma run_prefix p s j : j <= run p s -> Forall (fun x => p x = true) (firstn j s).
Proof.
  revert j. induction s as [|x s IH]; intros j Hj; [by rewrite firstn_nil|].
  destruct j as [|j]; [constructor|]. simpl in *.
  destruct (p x) eqn:E; [|lia]. constructor; [done|]. apply IH. lia.
Qed.

Lemma mt_grows r s c s' c' : mt r s c s' c' -> exists a, c' = a ++ c.
Proof.
  induction 1.
  all: try (by exists []).
  - destruct IHmt1 as [a1 ->], IHmt2 as [a2 ->]. exists (a2 ++ a1). by rewrite app_assoc.
  - done.
  - destruct IHmt as [a ->]. eexists (_ :: a). reflexivity.
Qed.

Lemma mt_caps P r s c s' c' :
  mt r s c s' c' -> grp_ok P r -> Forall (fun e => P e.1 e.2) c -> Forall (fun e => P e.1 e.2) c'.
Proof.
  induction 1 as [| | | r1 r2 s c s1 c1 s2 c2 M1 IH1 M2 IH2 | r s c s' c' M IH | |
                  i r s c s' c' M IH |]; intros G Hc; simpl in G; try exact Hc.
  - destruct G as [G1 G2]. apply IH2; [done|]. by apply IH1.
  - by apply IH.
  - destruct r as [| | p lo hi g | | | |]; try done.
    inversion M; subst. constructor; [|done]. simpl.
    match goal with Hj : In _ (candidates _ _ _ _) |- _ => apply candidates_bounds in Hj as (B1 & B2 & B3) end.
    pose proof (run_le p s).
    rewrite length_skipn. replace (length s - (length s - j)) with j by lia.
    apply G.
    + rewrite length_firstn. lia.
    + destruct hi; [rewrite length_firstn; lia|done].
    + by apply run_prefix.
Qed.

Lemma mt_must i r s c s' c' : mt r s c s' c' -> must i r -> exists v, In (i, v) c'.
Proof.
  induction 1 as [| | | r1 r2 s c s1 c1 s2 c2 M1 IH1 M2 IH2 | | | i' r s c s' c' M IH |];
    simpl; try tauto.
  - intros [H|H].
    + destruct (IH1 H) as [v Hv]. destruct (mt_grows _ _ _ _ _ M2) as [a ->].
      exists v. apply in_or_app. by right.
    + by apply IH2.
  - intros ->. eexists. by left.
Qed.

Lemma group_In c i v : group c i = Some v -> In (i, v) c.
Proof.
  unfold group. destruct (find _ c) as [[j w]|] eqn:E; [|done]. intros [= <-].
  apply find_some in E as [Hin Hj]. apply Nat.eqb_eq in Hj. simpl in Hj. by subst.
Qed.

Lemma group_some c i v : In (i, v) c -> exists w, group c i = Some w.
Proof.
  unfold group. intros Hin. destruct (find (fun e => Nat.eqb (fst e) i) c) as [[j w]|] eqn:E.
  - by exists w.
  - eapply find_none in E; [|exact Hin]. simpl in E. by rewrite Nat.eqb_refl in E.
Qed.

Lemma from_pattern_groups : grp_ok from_groups from_pattern.
Proof.
  unfold from_pattern. cbn. repeat split.
  all: match goal with
       | H : _ <= length ?v |- ?v <> [] => destruct v; simpl in H; [lia|discriminate]
       | H : Forall _ ?v |- Forall _ ?v => eapply Forall_impl; [exact H|]; intros x Hx
       | _ => idtac
       end.
  all: try lia; try done.
  all: unfold not_space, not_space_at in Hx; try by destruct (is_space x).
  apply andb_true_iff in Hx as [A B]. split; [by destruct (is_space x)|].
  intros ->. discriminate B.
Qed.

Lemma parse_lines_some lines r :
  parse_lines lines = Some r ->
  exists line c, In line lines /\ re_match from_pattern line = Some c /\ r = reference_of c line.
Proof.
  induction lines as [|line rest IH]; simpl; [done|].
  destruct (re_match from_pattern line) as [c|] eqn:E.
  - intros [= <-]. exists line, c. auto.
  - intros H. destruct (IH H) as (l' & c & ? & ? & ?). exists l', c. auto.
Qed.

Lemma from_match_groups line c :
  re_match from_pattern line = Some c ->
  Forall (fun e => from_groups e.1 e.2) c /\ exists v, group c 2 = Some v.
Proof.
  unfold re_match. intros H. apply m_sound in H as (s' & c' & M & [= ->]).
  split.
  - eapply mt_caps; [exact M|apply from_pattern_groups|constructor].
  - destruct (mt_must 2 _ _ _ _ _ M) as [v Hv]; [unfold from_pattern; cbn; tauto|].
    by apply group_some in Hv.
Qed.

Lemma group_from c i v :
  Forall (fun e => from_groups e.1 e.2) c -> group c i = Some v -> from_groups i v.
Proof.
  intros F G. apply group_In in G. rewrite List.Forall_forall in F. exact (F _ G).
Qed.

Lemma hex_ci_chars x :
  hex_ci x = true ->
  let n := nat_of_ascii x in 48 <= n <= 57 \/ 65 <= n <= 70 \/ 97 <= n <= 102.
Proof.
  unfold hex_ci, lower. cbv zeta. pose proof (nat_ascii_bounded x) as Hb.
  destruct ((65 <=? nat_of_ascii x) && (nat_of_ascii x <=? 90)) eqn:E.
  - apply andb_true_iff in E as [E1 E2]. apply Nat.leb_le in E1, E2.
    rewrite nat_ascii_embedding by lia.
    intros H. apply orb_true_iff in H as [H|H]; apply andb_true_iff in H as [H1 H2];
      apply Nat.leb_le in H1, H2; lia.
  - intros H. apply orb_true_iff in H as [H|H]; apply andb_true_iff in H as [H1 H2];
      apply Nat.leb_le in H1, H2; lia.
Qed.

Lemma string_list_roundtrip v : list_ascii_of_string (string_of_list_ascii v) = v.
Proof. apply list_ascii_of_string_of_list_ascii. Qed.

Lemma parse_fields_core content r :
  parse_dockerfile content = Some r ->
  image r <> "" /\ no_space (image r) /\ no_space (platform r) /\
  no_space (tag r) /\ no_char "@" (tag r) /\
  (forall d, digest r = Some d ->
     String.length d = 64 /\
     Forall (fun x => let n := nat_of_ascii x in 48 <= n <= 57 \/ 65 <= n <= 70 \/ 97 <= n <= 102)
            (list_ascii_of_string d)).
Proof.
  unfold parse_dockerfile. intros H.
  apply parse_lines_some in H as (line & c & _ & Hm & ->).
  apply from_match_groups in Hm as [F [v2 G2]].
  unfold reference_of. cbn [image platform tag digest]. rewrite G2.
  destruct (group_from _ _ _ F G2) as [N2 S2].
  unfold no_space, no_char. rewrite !string_list_roundtrip.
  split; [destruct v2; [done|discriminate]|]. split; [done|].
  split.
  { destruct (group c 1) as [v1|] eqn:G1.
    - destruct (group_from _ _ _ F G1) as [N1 S1]. destruct v1 as [|x v1]; [done|].
      cbn [or_default]. by rewrite string_list_roundtrip.
    - vm_compute. repeat constructor; discriminate. }
  assert (T : Forall (fun x => is_space x = false /\ x <> "@"%char)
                     (list_ascii_of_string (or_default (group c 3) "latest"))).
  { destruct (group c 3) as [v3|] eqn:G3.
    - destruct (group_from _ _ _ F G3) as [N3 S3]. destruct v3 as [|x v3]; [done|].
      cbn [or_default]. by rewrite string_list_roundtrip.
    - vm_compute. repeat constructor; discriminate. }
  split; [eapply Forall_impl; [exact T|]; intros x [Hx _]; exact Hx|].
  split; [eapply Forall_impl; [exact T|]; intros x [_ Hx]; exact Hx|].
  intros d Hd. destruct (group c 4) as [v4|] eqn:G4; [|discriminate].
  injection Hd as <-. destruct (group_from _ _ _ F G4) as [_ [L4 H4]].
  rewrite <- (string_list_roundtrip v4) in L4.
  split.
  - rewrite <- L4. clear. induction (string_of_list_ascii v4); simpl; congruence.
  - rewrite string_list_roundtrip. eapply Forall_impl; [exact H4|]. apply hex_ci_chars.
Qed.

End MatchFacts.

Module MatchX.
Import Py Regex ManageImages Props Examples MatchDefs RegexFacts MatchFacts.

(** The reference parse_dockerfile returns: the image is non-empty and has
    no whitespace, the platform has no whitespace, the tag has no whitespace
    and no '@', and a digest, when present, is 64 hexadecimal digits of
    either case. *)
Theorem parse_dockerfile_fields content r :
  parse_dockerfile content = Some r ->
  image r <> "" /\ no_space (image r) /\ no_space (platform r) /\
  no_space (tag r) /\ no_char "@" (tag r) /\
  (forall d, digest r = Some d ->
     String.length d = 64 /\
     Forall (fun x => let n := nat_of_ascii x in 48 <= n <= 57 \/ 65 <= n <= 70 \/ 97 <= n <= 102)
            (list_ascii_of_string d)).
Proof. apply parse_fields_core. Qed.

Lemma parse_dockerfile_fields_witness :
  match parse_dockerfile pinned_text with
  | Some r =>
      image r <> "" /\ no_space (image r) /\ no_space (platform r) /\
      no_space (tag r) /\ no_char "@" (tag r) /\
      (forall d, digest r = Some d ->
         String.length d = 64 /\
         Forall (fun x => let n := nat_of_ascii x in 48 <= n <= 57 \/ 65 <= n <= 70 \/ 97 <= n <= 102)
                (list_ascii_of_string d))
  | None => False
  end.
Proof.
  destruct (parse_dockerfile pinned_text) as [r|] eqn:E.
  - exact (parse_dockerfile_fields pinned_text r E).
  - vm_compute in E. discriminate E.
Defined.

End MatchX.

Module HarvestX.
Import Py Regex ManageImages Fs Cli Props Examples DigestFacts MatchFacts.

Lemma last_In' {A} (l : list A) x : last l = Some x -> In x l.
Proof.
  induction l as [|y l IH]; [done|]. destruct l as [|z l].
  - intros [= ->]. by left.
  - intros H. right. by apply IH.
Qed.

(** Every reference that harvest-digests puts in the index under
    (image, tag, platform) is "image:tag@sha256:" followed by 64
    hexadecimal digits. *)
Theorem harvest_values_pinned fs l i t p v :
  lookup3 (collect fs l).1 i t p = Some v ->
  exists d, v = i +:+ ":" +:+ t +:+ "@sha256:" +:+ d /\ String.length d = 64 /\
    Forall (fun x => let n := nat_of_ascii x in 48 <= n <= 57 \/ 65 <= n <= 70 \/ 97 <= n <= 102)
           (list_ascii_of_string d).
Proof.
  unfold collect. destruct (collect_fold fs l (∅, 0) i t p) as [E _]. rewrite E.
  destruct (last (refs_at fs l i t p)) as [v'|] eqn:L; [|discriminate].
  intros [= <-]. apply last_In' in L. unfold refs_at in L. apply in_flat_map in L as (q & _ & Hq).
  destruct (parse_dockerfile (read fs q)) as [r|] eqn:Pr; [|done].
  destruct (digest r) as [d|] eqn:Dr; [|done].
  case_bool_decide as K; [|done]. destruct K as (<- & <- & <-).
  destruct Hq as [<-|[]]. exists d. split; [reflexivity|].
  destruct (parse_fields_core _ _ Pr) as (_ & _ & _ & _ & _ & Hd). by apply Hd.
Qed.

Lemma harvest_values_pinned_witness :
  lookup3 (collect fs_bumped [p_busybox]).1 "busybox" "1" "linux/amd64" = Some ("busybox:1@sha256:" +:+ d64) /\
  exists d, "busybox:1@sha256:" +:+ d64 = "busybox" +:+ ":" +:+ "1" +:+ "@sha256:" +:+ d /\
    String.length d = 64 /\
    Forall (fun x => let n := nat_of_ascii x in 48 <= n <= 57 \/ 65 <= n <= 70 \/ 97 <= n <= 102)
           (list_ascii_of_string d).
Proof.
  assert (H : lookup3 (collect fs_bumped [p_busybox]).1 "busybox" "1" "linux/amd64"
              = Some ("busybox:1@sha256:" +:+ d64)) by (vm_compute; reflexivity).
  split; [exact H|]. exact (harvest_values_pinned _ _ _ _ _ _ H).
Defined.

End HarvestX.

Module GenFacts.
Import Py Fs ManageImages Cli Jobs FsRemove GenerateVersionDockerfiles Examples GenDefs
  JobFacts StageFacts IdemFacts DigestFacts.

Lemma split_on_nonempty sep s : split_on sep s <> [].
Proof. destruct s as [|c s]; simpl; [done|]. destruct (ascii_eqb c sep); [done|]. by destruct (split_on sep s). Qed.

Lemma split_on_sep sep x y :
  split_on sep (x +:+ String sep y) = split_on sep x ++ split_on sep y.
Proof.
  induction x as [|c x IH]; simpl.
  - unfold ascii_eqb. by rewrite Ascii.eqb_refl.
  - rewrite IH. destruct (ascii_eqb c sep); [done|].
    destruct (split_on sep x) as [|z r] eqn:E; [by apply split_on_nonempty in E|]. done.
Qed.

Lemma Path_slash x y : Path (x +:+ "/" +:+ y) = Path x ++ Path y.
Proof. unfold Path. change ("/" +:+ y) with (String "/" y). by rewrite split_on_sep, List.filter_app. Qed.

Lemma pin_file_path a b c : pin_file a b c = pin_path a b c.
Proof.
  unfold pin_file, pin_path, join, pins_dir.
  change ("nix/_dockerfiles/pins/" +:+ a +:+ "/" +:+ b +:+ "/" +:+ c +:+ "/Dockerfile")
    with ("nix/_dockerfiles/pins" +:+ "/" +:+ (a +:+ "/" +:+ (b +:+ "/" +:+ (c +:+ "/" +:+ "Dockerfile")))).
  do 4 rewrite Path_slash. rewrite <- !app_assoc. reflexivity.
Qed.

Lemma version_file_app s a b :
  version_file s a b = versions_dir ++ Path (s +:+ "/" +:+ a +:+ "/" +:+ b +:+ "/Dockerfile").
Proof.
  unfold version_file, versions_dir.
  change ("nix/_dockerfiles/versions/" +:+ s +:+ "/" +:+ a +:+ "/" +:+ b +:+ "/Dockerfile")
    with ("nix/_dockerfiles/versions" +:+ "/" +:+ (s +:+ "/" +:+ a +:+ "/" +:+ b +:+ "/Dockerfile")).
  apply Path_slash.
Qed.

Lemma version_file_under s a b : firstn 3 (version_file s a b) = versions_dir.
Proof.
  rewrite version_file_app, versions_dir_eq. simpl. by destruct (Path _).
Qed.

Lemma version_file_path s a b : version_file s a b = version_path s a b.
Proof. unfold version_file, version_path. reflexivity. Qed.

Lemma fold_left_ext2 {A B} (f g : A -> B -> A) (l : list B) (a b : A) :
  (forall a x, f a x = g a x) -> a = b -> fold_left f l a = fold_left g l b.
Proof. intros H <-. revert a. induction l as [|x l IH]; intros a; simpl; [done|]. by rewrite H, IH. Qed.

Lemma main_item_jobs st it :
  main_item st it = run_jobs (item_version_jobs it ++ item_pin_jobs it) st.
Proof.
  rewrite run_jobs_app, <- versions_item_jobs, <- pins_item_jobs.
  unfold main_item, pins_item, versions_item. cbv zeta.
  apply fold_left_ext2.
  - intros st' tg. apply fold_left_ext2; [|done]. intros st'' plat. by rewrite pin_file_path.
  - apply fold_left_ext2; [|done]. intros st' [strategy tags]. simpl.
    destruct tags as [|tg tags]; [done|].
    apply fold_left_ext2; [|done]. intros st'' plat. by rewrite version_file_path.
Qed.

Lemma prune_files n base d fs : files (prune n base d fs) = files fs.
Proof.
  revert d fs. induction n as [|n IH]; intros d fs; simpl; [done|].
  destruct (_ && _); [|done]. unfold rmdir.
  destruct (_ && _); [|done]. by rewrite IH.
Qed.

Lemma remove_orphaned_fold ol base fs rem :
  NoDup ol -> (forall p, In p ol -> is_Some (files fs !! p)) ->
  exists fs1 rem1, fold_left (remove_one base) ol (Some (fs, rem)) = Some (fs1, rem1) /\
    forall q, files fs1 !! q = if decide (q ∈ ol) then None else files fs !! q.
Proof.
  revert fs rem. induction ol as [|p ol IH]; intros fs rem N H; simpl.
  - exists fs, rem. split; [done|]. intros q. destruct (decide (q ∈ [])) as [Hq|]; [|done].
    by apply elem_of_nil in Hq.
  - apply NoDup_cons in N as [Np N].
    destruct (H p (or_introl eq_refl)) as [v Hv]. cbn [remove_one]. unfold unlink at 1. rewrite Hv.
    set (fs1 := prune _ _ _ _).
    assert (F1 : files fs1 = delete p (files fs)) by (unfold fs1; by rewrite prune_files).
    destruct (IH fs1 (rem ++ [p]) N) as (fs2 & rem2 & E & Hq).
    { intros p' Hp'. rewrite F1. rewrite lookup_delete_ne.
      - apply H. by right.
      - intros ->. apply Np. by apply list_elem_of_In. }
    exists fs2, rem2. split; [exact E|]. intros q. rewrite Hq, F1.
    destruct (decide (q ∈ ol)) as [Hin|Hin]; destruct (decide (q ∈ p :: ol)) as [D|D];
      rewrite ?elem_of_cons in D; try tauto.
    + destruct D as [->|D]; [|done]. by rewrite lookup_delete_eq.
    + rewrite lookup_delete_ne; [done|]. intros ->. apply D. by left.
Qed.

Lemma remove_orphaned_ok ol base fs :
  NoDup ol -> (forall p, In p ol -> is_Some (files fs !! p)) ->
  exists fs1 rem, remove_orphaned_dockerfiles ol base fs = Some (fs1, rem) /\
    forall q, files fs1 !! q = if decide (q ∈ ol) then None else files fs !! q.
Proof. apply remove_orphaned_fold. Qed.

Lemma create_if_absent_new st p c q v :
  files (create_if_absent st p c).1 !! q = Some v -> files st.1 !! q = Some v \/ q = p.
Proof.
  destruct st as [fs cr]. unfold create_if_absent. simpl.
  destruct (exists_ fs p); [by left|]. simpl.
  destruct (decide (p = q)) as [<-|Hne]; [by right|]. rewrite lookup_insert_ne by done. by left.
Qed.

Lemma run_jobs_new J st q v :
  files (run_jobs J st).1 !! q = Some v -> files st.1 !! q = Some v \/ In q (map fst J).
Proof.
  unfold run_jobs. revert st. induction J as [|pc J IH]; intros st H; simpl in *; [by left|].
  destruct (IH _ H) as [H1|H1]; [|by right; right].
  apply create_if_absent_new in H1 as [H1| ->]; [by left|by right; left].
Qed.

Lemma map_flat_map' {A B C} (g : B -> C) (f : A -> list B) l :
  map g (flat_map f l) = flat_map (fun x => map g (f x)) l.
Proof. induction l as [|x l IH]; simpl; [done|]. by rewrite map_app, IH. Qed.

Lemma item_version_jobs_paths it : map fst (item_version_jobs it) = item_version_paths it.
Proof.
  unfold item_version_jobs, item_version_paths. rewrite map_flat_map'.
  apply flat_map_ext_in. intros [strategy [|tg tags]] _; simpl; [done|].
  rewrite map_map. apply map_ext. intros plat. cbn [fst]. symmetry. apply version_file_path.
Qed.

Lemma item_pin_jobs_paths it : map fst (item_pin_jobs it) = item_pin_paths it.
Proof.
  unfold item_pin_jobs, item_pin_paths. rewrite map_flat_map'.
  apply flat_map_ext_in. intros tg _.
  rewrite map_map. apply map_ext. intros plat. cbn [fst]. symmetry. apply pin_file_path.
Qed.

Lemma legacy_jobs_paths items q :
  In q (map fst (legacy_jobs items)) <->
  q ∈ get_expected_version_paths items \/ q ∈ get_expected_pin_paths items.
Proof.
  unfold legacy_jobs, get_expected_version_paths, get_expected_pin_paths.
  rewrite !elem_of_list_to_set, !list_elem_of_In, map_flat_map', !in_flat_map.
  split.
  - intros (it & Hit & Hq). rewrite map_app in Hq. apply in_app_or in Hq as [Hq|Hq].
    + left. exists it. by rewrite <- item_version_jobs_paths.
    + right. exists it. by rewrite <- item_pin_jobs_paths.
  - intros [(it & Hit & Hq)|(it & Hit & Hq)]; exists it; split; try done; rewrite map_app;
      apply in_or_app; [left; by rewrite item_version_jobs_paths|right; by rewrite item_pin_jobs_paths].
Qed.

Lemma expected_pin_under items q : q ∈ get_expected_pin_paths items -> firstn 3 q = pins_dir.
Proof.
  unfold get_expected_pin_paths. rewrite elem_of_list_to_set, list_elem_of_In, in_flat_map.
  intros (it & _ & Hq). unfold item_pin_paths in Hq. apply in_flat_map in Hq as (tg & _ & Hq).
  apply in_map_iff in Hq as (plat & <- & _). rewrite pin_file_path. apply pin_path_under_pins.
Qed.

Lemma expected_version_under items q : q ∈ get_expected_version_paths items -> firstn 3 q = versions_dir.
Proof.
  unfold get_expected_version_paths. rewrite elem_of_list_to_set, list_elem_of_In, in_flat_map.
  intros (it & _ & Hq). unfold item_version_paths in Hq. apply in_flat_map in Hq as ([strategy tags] & _ & Hq).
  destruct tags as [|tg tags]; [done|].
  apply in_map_iff in Hq as (plat & <- & _). apply version_file_under.
Qed.

Lemma prefix_firstn base q : prefix_of base q = true -> firstn (length base) q = base /\ length base < length q.
Proof. unfold prefix_of. rewrite andb_true_iff, bool_decide_eq_true, Nat.ltb_lt. done. Qed.

Lemma wf_base fs base q :
  wf fs -> prefix_of base q = true -> is_Some (files fs !! q) -> 0 < length base -> exists_ fs base = true.
Proof.
  intros W Hp Hq Hb. apply prefix_firstn in Hp as [Hp Hl].
  unfold exists_. apply orb_true_iff. right. apply bool_decide_eq_true.
  rewrite <- Hp. apply W; [done|lia].
Qed.

Lemma orphan_order_files fs base E ol p :
  orphan_order fs base E ol -> In p ol -> is_Some (files fs !! p) /\ prefix_of base p = true.
Proof.
  intros (listing & R & N & H) Hp. apply H in Hp as [Hp _].
  unfold get_existing_dockerfiles in Hp. destruct (exists_ fs base); [|by apply not_elem_of_empty in Hp].
  apply elem_of_list_to_set, list_elem_of_In in Hp. destruct R as [_ R]. apply R in Hp as (? & _ & ?). done.
Qed.

Lemma orphan_order_complete fs base E ol q :
  wf fs -> orphan_order fs base E ol -> 0 < length base ->
  prefix_of base q = true -> last q = Some "Dockerfile" -> is_Some (files fs !! q) -> q ∉ E -> In q ol.
Proof.
  intros W (listing & R & N & H) Hb Hp Hl Hq HE. apply H. split; [|done].
  unfold get_existing_dockerfiles. rewrite (wf_base fs base q W Hp Hq Hb) in R |- *.
  apply elem_of_list_to_set, list_elem_of_In. destruct R as [_ R]. by apply R.
Qed.



Lemma versions_not_pins q : firstn 3 q = pins_dir -> prefix_of versions_dir q = true -> False.
Proof.
  intros Hq Hp. apply prefix_firstn in Hp as [Hp _].
  rewrite versions_dir_eq in Hp. rewrite pins_dir_eq in Hq. simpl length in Hp. congruence.
Qed.

Lemma pins_not_versions q : firstn 3 q = versions_dir -> prefix_of pins_dir q = true -> False.
Proof.
  intros Hq Hp. apply prefix_firstn in Hp as [Hp _].
  rewrite pins_dir_eq in Hp. rewrite versions_dir_eq in Hq. simpl length in Hp. congruence.
Qed.

(** Suppose the orphan lists are the existing Dockerfiles not expected from
    the catalog.  Suppose also that no step of the script can raise: no
    directory is named Dockerfile (rglob would yield it and unlink would
    fail), no existing file and no expected Dockerfile lies on the way to
    an expected Dockerfile (mkdir would fail), and no platform is ".."
    (the operating system would resolve it).  Then main exits with code 0,
    and afterwards the versions and pins trees hold exactly the expected
    Dockerfiles: every Dockerfile below versions (pins) is expected, every
    expected one exists, and every file that was not an orphan keeps its
    content. *)
Theorem main_sync items ov op fs :
  wf fs ->
  (forall d, d ∈ dirs fs -> last d <> Some "Dockerfile") ->
  (forall q e,
     q ∈ dom (files fs) ∪ get_expected_version_paths items ∪ get_expected_pin_paths items ->
     e ∈ get_expected_version_paths items ∪ get_expected_pin_paths items ->
     prefix_of q e = false) ->
  (forall it, In it items -> ".." ∉ item_platforms it) ->
  orphan_order fs versions_dir (get_expected_version_paths items) ov ->
  orphan_order fs pins_dir (get_expected_pin_paths items) op ->
  exists fs' created, main (CatValid items) ov op fs = Returned 0 fs' created /\
    (forall q v, files fs' !! q = Some v -> last q = Some "Dockerfile" ->
       (prefix_of versions_dir q = true -> q ∈ get_expected_version_paths items) /\
       (prefix_of pins_dir q = true -> q ∈ get_expected_pin_paths items)) /\
    (forall q, q ∈ get_expected_version_paths items \/ q ∈ get_expected_pin_paths items ->
       exists_ fs' q = true) /\
    (forall q v, files fs !! q = Some v -> ~ In q ov -> ~ In q op -> files fs' !! q = Some v).
Proof.
  intros W _ _ _ Ov Op.
  assert (Nv : NoDup ov) by (destruct Ov as (? & _ & ? & _); done).
  assert (Np : NoDup op) by (destruct Op as (? & _ & ? & _); done).
  destruct (remove_orphaned_ok ov versions_dir fs Nv) as (fs1 & r1 & E1 & H1).
  { intros p Hp. by destruct (orphan_order_files _ _ _ _ _ Ov Hp). }
  destruct (remove_orphaned_ok op pins_dir fs1 Np) as (fs2 & r2 & E2 & H2).
  { intros p Hp. destruct (orphan_order_files _ _ _ _ _ Op Hp) as [Hs Hpre].
    rewrite H1. case_decide as Hv; [|done]. exfalso.
    apply list_elem_of_In in Hv. destruct (orphan_order_files _ _ _ _ _ Ov Hv) as [_ Hv'].
    apply prefix_firstn in Hv' as [Hv' _]. rewrite versions_dir_eq in Hv'.
    eapply pins_not_versions; [|exact Hpre]. by rewrite versions_dir_eq. }
  unfold main. rewrite E1, E2.
  rewrite (items_jobs main_item (fun it => item_version_jobs it ++ item_pin_jobs it))
    by (intros; apply main_item_jobs).
  fold (legacy_jobs items).
  eexists _, _. split; [reflexivity|]. split; [|split].
  - intros q v Hq Hl. apply run_jobs_new in Hq as [Hq|Hq].
    + cbn [fst] in Hq. rewrite H2 in Hq. case_decide as n; [discriminate|].
      rewrite H1 in Hq. case_decide as Nq; [discriminate|].
      split; intros Hp.
      * destruct (decide (q ∈ get_expected_version_paths items)) as [|NE]; [done|].
        exfalso. apply Nq, list_elem_of_In.
        eapply orphan_order_complete; eauto. rewrite versions_dir_eq. simpl. lia.
      * destruct (decide (q ∈ get_expected_pin_paths items)) as [|NE]; [done|].
        exfalso. apply n, list_elem_of_In.
        eapply orphan_order_complete; eauto. rewrite pins_dir_eq. simpl. lia.
    + apply legacy_jobs_paths in Hq as [Hq|Hq]; split; intros Hp; try done; exfalso.
      * apply expected_version_under in Hq. by eapply pins_not_versions.
      * apply expected_pin_under in Hq. by eapply versions_not_pins.
  - intros q Hq. apply legacy_jobs_paths, in_map_iff in Hq as (pc & <- & Hin).
    by apply run_jobs_covers.
  - intros q v Hv Nv' Np'. apply run_jobs_keeps. cbn [fst]. rewrite H2.
    case_decide as Hin; [by apply list_elem_of_In in Hin|].
    rewrite H1. case_decide as Hin'; [by apply list_elem_of_In in Hin'|]. done.
Qed.

Lemma tree_is_Some fl p : is_Some (files (tree fl) !! p) <-> In p (map fst fl).
Proof.
  split.
  - intros [x Hx]. apply tree_files_In in Hx. by apply (in_map fst) in Hx.
  - intros Hp. apply in_map_iff in Hp as ([p' x] & <- & Hp).
    destruct (files (tree fl) !! p') eqn:E; [done|].
    apply not_elem_of_list_to_map_2 in E. exfalso. apply E.
    apply list_elem_of_fmap. exists (p', x). split; [done|]. by apply list_elem_of_In.
Qed.

Lemma tree_wf fl : wf (tree fl).
Proof.
  intros p Hp n Hn. apply tree_is_Some in Hp. unfold tree, parents; cbn [dirs].
  apply elem_of_list_to_set, list_elem_of_In, in_flat_map. exists p. split; [done|].
  apply in_map_iff. exists n. split; [done|]. apply in_seq. lia.
Qed.

Lemma tree_rglob fl base : NoDup (map fst fl) -> rglob_spec (tree fl) base (dockerfiles_below base fl).
Proof.
  intros N. split; [unfold dockerfiles_below; apply NoDup_ListNoDup, List.NoDup_filter; by apply NoDup_ListNoDup|].
  intros p. unfold dockerfiles_below. rewrite List.filter_In, andb_true_iff, bool_decide_eq_true, tree_is_Some.
  tauto.
Qed.

Lemma tree_orphan_order fl base E ol :
  NoDup (map fst fl) -> NoDup ol ->
  (forall p, In p ol <-> (if exists_ (tree fl) base then In p (dockerfiles_below base fl) else False) /\ p ∉ E) ->
  orphan_order (tree fl) base E ol.
Proof.
  intros N No H. exists (dockerfiles_below base fl). split; [|split; [done|]].
  - destruct (exists_ _ _); [by apply tree_rglob|done].
  - intros p. rewrite H. unfold get_existing_dockerfiles.
    destruct (exists_ _ _); [|rewrite elem_of_empty; tauto].
    by rewrite elem_of_list_to_set, list_elem_of_In.
Qed.

Lemma tree_orphan_order' fl base E ol :
  NoDup (map fst fl) ->
  ol = List.filter (fun p => bool_decide (p ∉ E))
         (if exists_ (tree fl) base then dockerfiles_below base fl else []) ->
  orphan_order (tree fl) base E ol.
Proof.
  intros N ->. apply tree_orphan_order; [done| |].
  - apply NoDup_ListNoDup, List.NoDup_filter, NoDup_ListNoDup.
    destruct (exists_ _ _); [apply (tree_rglob fl base N)|constructor].
  - intros p. rewrite List.filter_In, bool_decide_eq_true. by destruct (exists_ _ _).
Qed.


Lemma main_sync_witness :
  exists fs' created, main (CatValid [busybox]) [v_old] [p_old] fs_orphans = Returned 0 fs' created.
Proof.
  destruct (main_sync [busybox] [v_old] [p_old] fs_orphans) as (fs' & cr & E & _).
  - apply tree_wf.
  - assert (B : bool_decide (set_Forall (fun d : path => last d <> Some "Dockerfile")
                                        (dirs fs_orphans)) = true)
      by (vm_compute; reflexivity).
    exact (bool_decide_eq_true_1 _ B).
  - assert (B : bool_decide (set_Forall (fun q => set_Forall (fun e => prefix_of q e = false)
                  (get_expected_version_paths [busybox] ∪ get_expected_pin_paths [busybox]))
                  (dom (files fs_orphans) ∪ get_expected_version_paths [busybox]
                     ∪ get_expected_pin_paths [busybox])) = true)
      by (vm_compute; reflexivity).
    intros q e Hq He. exact (bool_decide_eq_true_1 _ B q Hq e He).
  - assert (B : bool_decide (Forall (fun it => ".." ∉ item_platforms it) [busybox]) = true)
      by (vm_compute; reflexivity).
    apply List.Forall_forall. exact (bool_decide_eq_true_1 _ B).
  - apply tree_orphan_order'; [apply (bool_decide_unpack _); vm_compute; reflexivity|].
    vm_compute. reflexivity.
  - apply tree_orphan_order'; [apply (bool_decide_unpack _); vm_compute; reflexivity|].
    vm_compute. reflexivity.
  - exists fs', cr. exact E.
Defined.


End GenFacts.

Module HarvestTagsFacts.
Import Py Regex ManageImages Fs Cli Props MatchDefs HarvestTags TagsDefs
  JobFacts RegexFacts MatchFacts.

Lemma from_pattern_tags_drop : from_pattern_tags = drop_grp 4 from_pattern.
Proof. reflexivity. Qed.

Lemma first_some_map {A B} (g : A -> B) (f : nat -> option A) l :
  first_some (fun j => option_map g (f j)) l = option_map g (first_some f l).
Proof. induction l as [|j l IH]; simpl; [done|]. by destruct (f j). Qed.

Lemma first_some_ext {A} (f g : nat -> option A) l :
  (forall j, f j = g j) -> first_some f l = first_some g l.
Proof. intros H. induction l as [|j l IH]; simpl; [done|]. by rewrite H, IH. Qed.

Lemma m_drop i r : forall s c k k',
  (forall s' c', k' s' (strip i c') = option_map (strip i) (k s' c')) ->
  m (drop_grp i r) s (strip i c) k' = option_map (strip i) (m r s c k).
Proof.
  induction r as [| l | p lo hi g | r1 IH1 r2 IH2 | r1 IH | j r1 IH |]; intros s c k k' Hk; cbn [drop_grp m].
  - apply Hk.
  - destruct (strip_ci l s); [apply Hk|done].
  - rewrite <- first_some_map. apply first_some_ext. intros j. apply Hk.
  - apply IH1. intros s' c'. by apply IH2.
  - rewrite (IH s c k k' Hk). destruct (m r1 s c k); [done|]. apply Hk.
  - destruct (Nat.eqb j i) eqn:E.
    + apply Nat.eqb_eq in E as ->. apply IH. intros s' c'. rewrite <- Hk.
      cbn [strip List.filter fst]. by rewrite Nat.eqb_refl.
    + cbn [m]. apply IH. intros s' c'. rewrite <- Hk.
      cbn [strip List.filter fst]. by rewrite E.
  - destruct s as [|x [|y s]]; [apply Hk| |done]. destruct (ascii_eqb x LF); [apply Hk|done].
Qed.

Lemma re_match_tags line :
  re_match from_pattern_tags line = option_map (strip 4) (re_match from_pattern line).
Proof.
  unfold re_match. rewrite from_pattern_tags_drop. change [] with (strip 4 []).
  by apply m_drop.
Qed.

Lemma group_strip i j c : j <> i -> group (strip i c) j = group c j.
Proof.
  intros Hj. unfold group, strip. induction c as [|[k v] c IH]; cbn [List.filter fst find]; [done|].
  destruct (Nat.eqb k i) eqn:E; cbn [negb].
  - apply Nat.eqb_eq in E as ->. apply Nat.eqb_neq in Hj. rewrite Nat.eqb_sym, Hj. exact IH.
  - cbn [find fst]. by destruct (Nat.eqb k j).
Qed.

Lemma or_default_group c i v d :
  Forall (fun e => from_groups e.1 e.2) c -> group c i = Some v ->
  or_default (Some v) d = string_of_list_ascii v /\ string_of_list_ascii v <> "".
Proof.
  intros F G. destruct (group_from _ _ _ F G) as [N _]. destruct v as [|x v]; [done|]. done.
Qed.

Lemma parse_tags_core content :
  match parse_dockerfile_tags content, parse_dockerfile content with
  | None, None => True
  | Some t, Some r =>
      t_image t = image r /\ t_image t <> "" /\ t_full_line t = full_line r /\
      tag r = match t_tag t with Some x => x | None => "latest" end /\
      platform r = match t_platform t with Some x => x | None => "linux/amd64" end /\
      (forall x, t_tag t = Some x -> x <> "") /\ (forall x, t_platform t = Some x -> x <> "")
  | _, _ => False
  end.
Proof.
  unfold parse_dockerfile_tags, parse_dockerfile.
  induction (splitlines content) as [|line rest IH]; cbn [parse_lines_tags parse_lines]; [done|].
  rewrite re_match_tags. destruct (re_match from_pattern line) as [c|] eqn:E; cbn [option_map]; [|exact IH].
  apply from_match_groups in E as [F [v2 G2]].
  unfold tags_ref_of, reference_of. cbn [t_image t_full_line t_tag t_platform image full_line tag platform].
  rewrite !group_strip by discriminate.
  split; [done|]. split.
  { rewrite G2. destruct (group_from _ _ _ F G2) as [N2 _]. by destruct v2. }
  split; [done|].
  destruct (group c 3) as [v3|] eqn:G3; [destruct (or_default_group c 3 v3 "latest" F G3) as [T3 N3]|];
  (destruct (group c 1) as [v1|] eqn:G1; [destruct (or_default_group c 1 v1 "linux/amd64" F G1) as [T1 N1]|]);
  cbn [option_map]; rewrite ?T1, ?T3; repeat split; intros x [= <-]; done.
Qed.







Lemma create_pins_none l : fold_left (fun acc p =>
  match acc with Some st => create_pin_step st p | None => None end) l None = None.
Proof. induction l as [|p l IH]; [done|]. exact IH. Qed.

Lemma valid_pins_none fs l : fold_left (fun acc p => valid_pins_step acc (read fs p)) l None = None.
Proof. induction l as [|p l IH]; [done|]. exact IH. Qed.

Lemma valid_pins_mono fs l V0 V :
  fold_left (fun acc p => valid_pins_step acc (read fs p)) l (Some V0) = Some V -> V0 ⊆ V.
Proof.
  revert V0. induction l as [|p l IH]; intros V0 H; cbn [fold_left] in H.
  - by injection H as ->.
  - unfold valid_pins_step at 2 in H.
    destruct (parse_dockerfile_tags (read fs p)) as [t|]; [|by apply IH in H].
    destruct (t_tag t) as [tg|]; [|by apply IH in H].
    destruct (bool_decide (tg = "")); [by apply IH in H|].
    destruct (sanitize_for_path (Some (t_image t))) as [si|]; [|by rewrite valid_pins_none in H].
    apply IH in H. set_solver.
Qed.

Lemma create_if_absent_created st p c q :
  In q (create_if_absent st p c).2 -> In q st.2 \/ q = p.
Proof.
  destruct st as [fs cr]. unfold create_if_absent. destruct (exists_ fs p); [by left|].
  cbn [snd]. rewrite in_app_iff. intros [H|[H|[]]]; [by left|by right].
Qed.

Lemma parent_join_dockerfile d : parent (join d "Dockerfile") = d.
Proof. unfold parent, join. change (Path "Dockerfile") with ["Dockerfile"]. apply removelast_last. Qed.

Lemma created_in_valid fs l : forall V0 V st st',
  (forall p, In p l -> is_Some (files fs !! p)) ->
  (forall p, In p l -> files st.1 !! p = files fs !! p) ->
  fold_left (fun acc p => valid_pins_step acc (read fs p)) l (Some V0) = Some V ->
  create_pins l st = Some st' ->
  (forall q, In q st.2 -> parent q ∈ V0) ->
  forall q, In q st'.2 -> parent q ∈ V.
Proof.
  unfold create_pins. induction l as [|p l IH]; intros V0 V st st' F E HV HC Hst.
  - cbn in HV, HC. injection HV as <-. injection HC as <-. exact Hst.
  - cbn [fold_left] in HV, HC.
    assert (R : read st.1 p = read fs p) by (unfold read; rewrite E by (by left); done).
    unfold create_pin_step at 2 in HC. unfold valid_pins_step at 2 in HV. rewrite R in HC.
    assert (E' : forall q, In q l -> files st.1 !! q = files fs !! q) by (intros q Hq; apply E; by right).
    assert (F' : forall q, In q l -> is_Some (files fs !! q)) by (intros q Hq; apply F; by right).
    destruct (parse_dockerfile_tags (read fs p)) as [t|]; [|exact (IH _ _ _ _ F' E' HV HC Hst)].
    destruct (t_tag t) as [tg|]; [|exact (IH _ _ _ _ F' E' HV HC Hst)].
    destruct (bool_decide (tg = "")); [exact (IH _ _ _ _ F' E' HV HC Hst)|].
    destruct (sanitize_for_path (Some (t_image t))) as [si|]; [|by rewrite create_pins_none in HC].
    cbv zeta in HC, HV.
    eapply IH; [exact F'| | exact HV | exact HC |].
    + intros q Hq. destruct (F' q Hq) as [v Hv]. rewrite Hv.
      apply create_if_absent_keeps. rewrite E' by done. exact Hv.
    + intros q Hq. apply create_if_absent_created in Hq as [Hq| ->].
      * apply Hst in Hq. set_solver.
      * rewrite parent_join_dockerfile. set_solver.
Qed.

End HarvestTagsFacts.

Module HarvestTagsX.
Import Py Regex ManageImages Fs Cli Examples MatchDefs HarvestTags TagsDefs
  RegexFacts MatchFacts HarvestTagsFacts.

(** The two parsers of FROM lines agree: harvest-tags' parse_dockerfile
    finds a line exactly when manage-images' does, with the same non-empty
    image and line; where harvest-tags reports no tag (no platform), manage-images
    reports latest (linux/amd64), and otherwise both report the same
    non-empty tag (platform). *)
Theorem parse_tags_agrees content :
  match parse_dockerfile_tags content, parse_dockerfile content with
  | None, None => True
  | Some t, Some r =>
      t_image t = image r /\ t_image t <> "" /\ t_full_line t = full_line r /\
      tag r = match t_tag t with Some x => x | None => "latest" end /\
      platform r = match t_platform t with Some x => x | None => "linux/amd64" end /\
      (forall x, t_tag t = Some x -> x <> "") /\ (forall x, t_platform t = Some x -> x <> "")
  | _, _ => False
  end.
Proof. apply parse_tags_core. Qed.



(** Every pin Dockerfile harvest-tags' creation loop creates lies in a
    directory that get_valid_pins_from_versions reports as valid for the
    same version files, so the orphan removal of the next run keeps it. *)
Theorem created_pins_valid listing fs V fs' created :
  exists_ fs versions_dir = true ->
  (forall p, In p listing -> is_Some (files fs !! p)) ->
  get_valid_pins_from_versions fs listing = Some V ->
  create_pins listing (fs, []) = Some (fs', created) ->
  forall q, In q created -> parent q ∈ V.
Proof.
  intros Hv F HV HC. unfold get_valid_pins_from_versions in HV. rewrite Hv in HV. cbn [negb] in HV.
  apply (created_in_valid fs listing ∅ V (fs, []) (fs', created) F); try done.
Qed.

Lemma created_pins_valid_witness :
  match get_valid_pins_from_versions fs_bumped [v_busybox], create_pins [v_busybox] (fs_bumped, []) with
  | Some V, Some (fs', created) => forall q, In q created -> parent q ∈ V
  | _, _ => False
  end.
Proof.
  assert (B1 : match get_valid_pins_from_versions fs_bumped [v_busybox] with
                | Some _ => true | None => false end = true) by (vm_compute; reflexivity).
  assert (B2 : match create_pins [v_busybox] (fs_bumped, []) with
                | Some _ => true | None => false end = true) by (vm_compute; reflexivity).
  destruct (get_valid_pins_from_versions fs_bumped [v_busybox]) as [V|] eqn:E1; [|discriminate B1].
  destruct (create_pins [v_busybox] (fs_bumped, [])) as [[fs' created]|] eqn:E2; [|discriminate B2].
  apply (created_pins_valid [v_busybox] fs_bumped V fs' created); [vm_compute; reflexivity| |exact E1|exact E2].
  intros p [<-|[]]. vm_compute. eexists. reflexivity.
Defined.

End HarvestTagsX.

Module CollectFacts.
Import Fs ManageImages Cli Props CollectDigests.



End CollectFacts.

Module CollectX.
Import Fs ManageImages Cli Props Examples CollectDigests CollectFacts.




End CollectX.

Module JsonFacts.
Import Py Json JsonDefs RegexFacts.

Lemma out_app a b : out_ok a -> out_ok b -> out_ok (a +:+ b).
Proof. unfold out_ok. rewrite list_ascii_app. apply Forall_app_2. Qed.

Lemma out_chr n : n = 10 \/ 32 <= n <= 126 -> out_ok (chr n).
Proof.
  intros H. unfold out_ok, chr. simpl. constructor; [|constructor].
  unfold out_char. rewrite nat_ascii_embedding by lia.
  destruct H as [->|H]; [left; reflexivity|right; lia].
Qed.

Lemma out_lit (s : string) :
  Forall (fun c => 32 <= nat_of_ascii c <= 126) (list_ascii_of_string s) -> out_ok s.
Proof. intros H. eapply Forall_impl; [exact H|]. intros c Hc. by right. Qed.

Lemma out_hexdigit n : n < 16 -> out_ok (hexdigit n).
Proof. intros H. unfold hexdigit. destruct (n <? 10) eqn:E; apply out_chr; apply Nat.ltb_lt in E || apply Nat.ltb_ge in E; lia. Qed.

Lemma out_escape_char c : out_ok (escape_char c).
Proof.
  unfold escape_char. cbv zeta.
  assert (B : out_ok bs) by (apply out_chr; lia).
  assert (D : out_ok dq) by (apply out_chr; lia).
  assert (N := nat_ascii_bounded c).
  repeat match goal with |- context [if ?b then _ else _] => destruct b eqn:? end.
  all: try (apply out_app; [done|]); try done; try (apply out_lit; repeat constructor; simpl; lia).
  - match goal with H : (_ && _) = true |- _ => apply andb_true_iff in H as [L U] end.
    apply Nat.leb_le in L, U. constructor; [right; lia|constructor].
  - apply out_app; [apply out_lit; repeat constructor; simpl; lia|].
    apply out_app; apply out_hexdigit; [apply Nat.Div0.div_lt_upper_bound; lia|apply Nat.mod_upper_bound; lia].
Qed.

Lemma out_escape s : out_ok (escape s).
Proof.
  induction s as [|c s IH]; simpl; [constructor|]. apply out_app; [apply out_escape_char|exact IH].
Qed.

Lemma out_str s : out_ok (str s).
Proof. unfold str. assert (D : out_ok dq) by (apply out_chr; lia). apply out_app; [done|apply out_app; [apply out_escape|done]]. Qed.

Lemma out_spaces n : out_ok (spaces n).
Proof. induction n as [|n IH]; simpl; [constructor|]. apply out_app; [|done]. repeat constructor; simpl; lia. Qed.

Lemma out_concat_sep sep l : out_ok sep -> Forall out_ok l -> out_ok (concat_sep sep l).
Proof.
  intros Hs Hl. induction Hl as [|x l Hx Hl IH]; simpl; [constructor|].
  destruct l as [|y l]; [done|]. apply out_app; [done|apply out_app; done].
Qed.

Lemma out_obj {A} lvl (val : nat -> A -> string) (mp : gmap string A) :
  (forall l v, out_ok (val l v)) -> out_ok (obj lvl val mp).
Proof.
  intros Hv. unfold obj.
  assert (NL : out_ok nl) by (apply out_chr; lia).
  destruct (sort_items (map_to_list mp)) as [|kv items] eqn:E.
  - repeat constructor; simpl; lia.
  - repeat apply out_app; try done; try apply out_spaces;
      try (apply out_lit; repeat constructor; simpl; lia).
    apply out_concat_sep; [apply out_app; [apply out_lit; repeat constructor; simpl; lia|done]|].
    apply List.Forall_forall. intros x Hx. apply in_map_iff in Hx as (kv' & <- & _).
    repeat apply out_app; try apply out_spaces; try apply out_str; try apply Hv.
    all: first [apply out_chr; lia | apply out_escape | apply out_lit; repeat constructor; simpl; lia].
Qed.

End JsonFacts.

Module JsonX.
Import Py Cli Json JsonDefs JsonFacts.

(** The text json.dump writes for a digests index uses only printable
    ASCII characters and line feeds: every other character of a key or
    reference is written as an escape. *)
Theorem dump_ascii (d : index) :
  Forall (fun c => c = LF \/ 32 <= nat_of_ascii c <= 126) (list_ascii_of_string (dump d)).
Proof.
  apply (out_obj 0). intros l1 t. apply out_obj. intros l2 p. apply out_obj. intros _ v. apply out_str.
Qed.

End JsonX.
